(** * ExecEnv start-up and shut-down (be/src/runtime/exec_env_init.cpp)

    A shallow embedding of [ExecEnv::_init], [ExecEnv::_init_mem_env],
    [ExecEnv::init_pipeline_task_scheduler], the download-cache helpers,
    the metric hooks and [ExecEnv::_destroy].

    The environment object is a record; every statement of the C++ code
    that is visible from outside the object (a [new], a call into a
    collaborator, a [delete], a hook registration) appends one [Event] to
    the [trace] field, so the order of construction and tear-down can be
    read back.  Values that come from outside this file (configuration,
    memory facts, what a collaborator's [init] returns) are inputs:
    [Config] and [World].  [LOG] statements are not modelled. *)

From stdpp Require Import gmap strings list pretty.
From Stdlib Require Import ZArith Lia.

Open Scope Z_scope.

(** ** Status values *)

(** [Status::OK()], [Status::InternalError(msg)], and any other non-OK
    status a collaborator hands back. *)
Inductive Status :=
| OK
| InternalError (msg : string)
| Failure (code : Z) (msg : string).

Definition ok (st : Status) : bool :=
  match st with OK => true | _ => false end.

(** ** Store paths *)

Record StorePath := mkStorePath { path : string; capacity_bytes : Z }.

(** ** The owned sub-systems: one constructor per pointer member *)

Inductive Member :=
| _external_scan_context_mgr
| _vstream_mgr
| _result_mgr
| _result_queue_mgr
| _backend_client_cache
| _frontend_client_cache
| _broker_client_cache
| _thread_mgr
| _pipeline_task_scheduler
| _scanner_scheduler
| _cgroups_mgr
| _fragment_mgr
| _result_cache
| _master_info
| _load_path_mgr
| _tmp_file_mgr
| _bfd_parser
| _broker_mgr
| _load_channel_mgr
| _load_stream_mgr
| _new_load_stream_mgr
| _internal_client_cache
| _function_client_cache
| _stream_load_executor
| _routine_load_task_executor
| _small_file_mgr
| _storage_policy_mgr
| _block_spill_mgr
| _heartbeat_flags
| _orphan_mem_tracker.

Definition member_id (m : Member) : positive :=
  match m with
  | _external_scan_context_mgr => 1 | _vstream_mgr => 2 | _result_mgr => 3
  | _result_queue_mgr => 4 | _backend_client_cache => 5
  | _frontend_client_cache => 6 | _broker_client_cache => 7
  | _thread_mgr => 8 | _pipeline_task_scheduler => 9
  | _scanner_scheduler => 10 | _cgroups_mgr => 11 | _fragment_mgr => 12
  | _result_cache => 13 | _master_info => 14 | _load_path_mgr => 15
  | _tmp_file_mgr => 16 | _bfd_parser => 17 | _broker_mgr => 18
  | _load_channel_mgr => 19 | _load_stream_mgr => 20
  | _new_load_stream_mgr => 21 | _internal_client_cache => 22
  | _function_client_cache => 23 | _stream_load_executor => 24
  | _routine_load_task_executor => 25 | _small_file_mgr => 26
  | _storage_policy_mgr => 27 | _block_spill_mgr => 28
  | _heartbeat_flags => 29 | _orphan_mem_tracker => 30
  end%positive.

Definition Member_eqb (a b : Member) : bool :=
  Pos.eqb (member_id a) (member_id b).

(** ** Worker pools and events *)

(** What [ThreadPoolBuilder(name).set_min_threads(..).set_max_threads(..)
    .set_max_queue_size(..)] describes. *)
Record WorkerPool := mkWorkerPool {
  pool_name : string;
  min_threads : Z;
  max_threads : Z;
  max_queue_size : Z
}.

Inductive Arg :=
| AInt (z : Z)
| AStr (s : string)
| AThis
| APaths (l : list StorePath).

Inductive Event :=
| New (m : Member) (args : list Arg)
| Call (m : Member) (method : string) (args : list Arg)
| DeleteObj (m : Member)
| Build (pool : WorkerPool)
| Static (fn : string) (args : list Arg)
| CreateGlobalCache (capacity index_percentage num_shards : Z)
| CreateGlobalInstance (segment_cache_capacity : Z)
| ChunkAllocatorInit (reserve_limit : Z)
| RegisterHook (metric : string)
| DeregisterHook (metric : string).

(** ** Inputs *)

(** The [config::] values the file reads. *)
Record Config := mkConfig {
  max_client_cache_size_per_host : Z;
  send_batch_thread_pool_thread_num : Z;
  send_batch_thread_pool_queue_size : Z;
  download_cache_thread_pool_thread_num : Z;
  download_cache_thread_pool_queue_size : Z;
  download_cache_buffer_size : Z;
  pipeline_executor_size : Z;
  doris_cgroups : string;
  query_cache_max_size_mb : Z;
  query_cache_elasticity_size_mb : Z;
  small_file_dir : string;
  enable_tcmalloc_hook : bool;
  min_buffer_size : Z;
  storage_page_cache_limit : string;
  index_page_cache_percentage : Z;
  storage_page_cache_shard_size : Z;
  min_file_descriptor_number : Z;
  min_chunk_reserved_bytes : Z;
  chunk_reserved_bytes_limit : string
}.

(** What the surroundings answer: system facts, the memory-spec parser
    (declared in util/parse_util.h; its last argument is the value
    [*is_percent] holds on entry, its second result the value on exit),
    [getrlimit], whether the tcmalloc hook is compiled in, and the status
    each collaborator's secondary initialisation returns. *)
Record World := mkWorld {
  CpuInfo_num_cores : Z;
  MemInfo_mem_limit : Z;
  MemInfo_physical_mem : Z;
  parse_mem_spec : string -> Z -> Z -> bool -> Z * bool;
  getrlimit_ret : Z;
  rlim_cur : Z;
  tcmalloc_hook_compiled : bool;
  pipeline_task_scheduler_start : Status;
  load_path_mgr_init : Status;
  tmp_file_mgr_init : Status;
  block_spill_mgr_init : Status;
  load_channel_mgr_init : Z -> Status
}.

(** ** The environment object *)

Record ExecEnv := mkExecEnv {
  _is_init : bool;
  _store_paths : list StorePath;
  _store_path_map : gmap string nat;
  (** [live m = true]: the pointer member [m] is not null *)
  live : Member -> bool;
  _send_batch_thread_pool : option WorkerPool;
  _download_cache_thread_pool : option WorkerPool;
  _serial_download_cache_thread_token : option nat;
  (** token -> size of the zero-filled buffer it owns *)
  _download_cache_buf_map : gmap nat Z;
  tokens_issued : nat;
  trace : list Event
}.

(** The object as the constructor leaves it. *)
Definition fresh_env : ExecEnv :=
  mkExecEnv false [] ∅ (fun _ => false) None None None ∅ 0%nat [].

Definition set_is_init (b : bool) (s : ExecEnv) : ExecEnv :=
  mkExecEnv b (_store_paths s) (_store_path_map s) (live s)
    (_send_batch_thread_pool s) (_download_cache_thread_pool s)
    (_serial_download_cache_thread_token s) (_download_cache_buf_map s)
    (tokens_issued s) (trace s).

Definition set_store_paths (l : list StorePath) (s : ExecEnv) : ExecEnv :=
  mkExecEnv (_is_init s) l (_store_path_map s) (live s)
    (_send_batch_thread_pool s) (_download_cache_thread_pool s)
    (_serial_download_cache_thread_token s) (_download_cache_buf_map s)
    (tokens_issued s) (trace s).

Definition set_store_path_map (m : gmap string nat) (s : ExecEnv) : ExecEnv :=
  mkExecEnv (_is_init s) (_store_paths s) m (live s)
    (_send_batch_thread_pool s) (_download_cache_thread_pool s)
    (_serial_download_cache_thread_token s) (_download_cache_buf_map s)
    (tokens_issued s) (trace s).

Definition set_live (m : Member) (b : bool) (s : ExecEnv) : ExecEnv :=
  mkExecEnv (_is_init s) (_store_paths s) (_store_path_map s)
    (fun x => if Member_eqb x m then b else live s x)
    (_send_batch_thread_pool s) (_download_cache_thread_pool s)
    (_serial_download_cache_thread_token s) (_download_cache_buf_map s)
    (tokens_issued s) (trace s).

Definition set_send_batch_thread_pool (p : WorkerPool) (s : ExecEnv) : ExecEnv :=
  mkExecEnv (_is_init s) (_store_paths s) (_store_path_map s) (live s)
    (Some p) (_download_cache_thread_pool s)
    (_serial_download_cache_thread_token s) (_download_cache_buf_map s)
    (tokens_issued s) (trace s).

Definition set_download_cache_thread_pool (p : WorkerPool) (s : ExecEnv) : ExecEnv :=
  mkExecEnv (_is_init s) (_store_paths s) (_store_path_map s) (live s)
    (_send_batch_thread_pool s) (Some p)
    (_serial_download_cache_thread_token s) (_download_cache_buf_map s)
    (tokens_issued s) (trace s).

Definition issue_token (s : ExecEnv) : ExecEnv :=
  mkExecEnv (_is_init s) (_store_paths s) (_store_path_map s) (live s)
    (_send_batch_thread_pool s) (_download_cache_thread_pool s)
    (Some (tokens_issued s)) (_download_cache_buf_map s)
    (S (tokens_issued s)) (trace s).

Definition set_download_cache_buf_map (m : gmap nat Z) (s : ExecEnv) : ExecEnv :=
  mkExecEnv (_is_init s) (_store_paths s) (_store_path_map s) (live s)
    (_send_batch_thread_pool s) (_download_cache_thread_pool s)
    (_serial_download_cache_thread_token s) m
    (tokens_issued s) (trace s).

Definition emit (e : Event) (s : ExecEnv) : ExecEnv :=
  mkExecEnv (_is_init s) (_store_paths s) (_store_path_map s) (live s)
    (_send_batch_thread_pool s) (_download_cache_thread_pool s)
    (_serial_download_cache_thread_token s) (_download_cache_buf_map s)
    (tokens_issued s) (trace s ++ [e]).

(** ** Helpers that live in other files of the repository *)

(** Modelled from the spec: [BitUtil::IsPowerOf2] (util/bit_util.h) is not
    part of this file.  The spec asks for "a power of two" and gives 96 as
    rejected and 128 as accepted. *)
Definition IsPowerOf2 (value : Z) : bool :=
  (0 <? value) && (value =? 2 ^ Z.log2 value).

(** Modelled from the spec: [BitUtil::RoundDown] (util/bit_util.h) is not
    part of this file.  The spec says "round it down to the nearest
    multiple of that granularity". *)
Definition RoundDown (value factor : Z) : Z := value / factor * factor.

(** [static_cast<uint64_t>] and the implicit conversion to [uint32_t]. *)
Definition to_uint64 (z : Z) : Z := z mod 2 ^ 64.
Definition to_uint32 (z : Z) : Z := z mod 2 ^ 32.

(** ** Statements

    A statement runs on the environment and either falls through to the
    next statement with a value, leaves the enclosing function by
    [return st], ends the process by [exit(code)], never finishes, or
    throws an exception (nothing in this file catches one, so it leaves
    every enclosing function). *)

Inductive Step (A : Type) :=
| Next (a : A)
| Ret (st : Status)
| Halt (code : Z)
| Spin
| Throw.
Arguments Next {A} a.
Arguments Ret {A} st.
Arguments Halt {A} code.
Arguments Spin {A}.
Arguments Throw {A}.

Definition Body (A : Type) : Type := ExecEnv -> Step A * ExecEnv.

#[global] Instance Body_ret : MRet Body := fun A a s => (Next a, s).

#[global] Instance Body_bind : MBind Body := fun A B f m s =>
  match m s with
  | (Next a, s') => f a s'
  | (Ret st, s') => (Ret st, s')
  | (Halt c, s') => (Halt c, s')
  | (Spin, s') => (Spin, s')
  | (Throw, s') => (Throw, s')
  end.

(** What a caller of a [Status]-valued member function observes. *)
Inductive Result :=
| Returned (st : Status)
| Exited (code : Z)
| Diverged
| Thrown.

Definition Fn : Type := ExecEnv -> Result * ExecEnv.

Definition gets {A : Type} (f : ExecEnv -> A) : Body A := fun s => (Next (f s), s).
Definition modify (f : ExecEnv -> ExecEnv) : Body unit := fun s => (Next tt, f s).
Definition skip : Body unit := mret tt.
Definition Return {A : Type} (st : Status) : Body A := fun s => (Ret st, s).
Definition exit {A : Type} (code : Z) : Body A := fun s => (Halt code, s).
Definition throw {A : Type} : Body A := fun s => (Throw, s).

(** A loop run with a bound on its iterations: [None] is "not finished". *)
Definition loop {A : Type} (r : option A) : Body A := fun s =>
  match r with Some a => (Next a, s) | None => (Spin, s) end.

(** A function body, seen from its caller. *)
Definition call (b : Body Status) : Fn := fun s =>
  match b s with
  | (Next st, s') => (Returned st, s')
  | (Ret st, s') => (Returned st, s')
  | (Halt c, s') => (Exited c, s')
  | (Spin, s') => (Diverged, s')
  | (Throw, s') => (Thrown, s')
  end.

(** A call to a member function, as an expression inside a body. *)
Definition invoke (f : Fn) : Body Status := fun s =>
  match f s with
  | (Returned st, s') => (Next st, s')
  | (Exited c, s') => (Halt c, s')
  | (Diverged, s') => (Spin, s')
  | (Thrown, s') => (Throw, s')
  end.

Definition effect (e : Event) : Body unit := modify (emit e).

(** [m = new T(args)] *)
Definition new (m : Member) (args : list Arg) : Body unit :=
  effect (New m args);; modify (set_live m true).

(** [m->method(args)] on a collaborator whose answer is [r]. *)
Definition collab {A : Type} (m : Member) (method : string) (args : list Arg)
    (r : A) : Body A :=
  effect (Call m method args);; mret r.

(** Modelled from the spec: the macro [RETURN_IF_ERROR(stmt)] is defined
    outside this file.  The spec has such a failure "returned" and the
    start-up "aborted": evaluate [stmt] and, unless its status is OK,
    return that status from the enclosing function. *)
Definition RETURN_IF_ERROR (stmt : Body Status) : Body unit :=
  st ← stmt; if ok st then skip else Return st.

(** Modelled from the spec: the macro [SAFE_DELETE(ptr)] is defined
    outside this file.  The spec has the subsystem "released": delete the
    object and null the pointer, unless the pointer is null already. *)
Definition SAFE_DELETE (m : Member) (s : ExecEnv) : ExecEnv :=
  if live s m then set_live m false (emit (DeleteObj m) s) else s.

(** ** The functions of exec_env_init.cpp *)

(** The loop of [_init]:
    [for (int i = 0; i < store_paths.size(); i++)
       _store_path_map[store_paths[i].path] = i;]
    started at index [i] on the paths from [i] on (the list is far shorter
    than the range of [int]).  Assignment through [operator[]] on a
    [std::map] overwrites the value of a key that is present. *)
Fixpoint store_path_map_loop (store_paths : list StorePath) (i : nat)
    (m : gmap string nat) : gmap string nat :=
  match store_paths with
  | [] => m
  | sp :: rest => store_path_map_loop rest (S i) (<[path sp := i]> m)
  end.

(** The loop of [_init_mem_env]:
    [while (!is_percent && storage_cache_limit > MemInfo::mem_limit() / 2)
       storage_cache_limit = storage_cache_limit / 2;]
    on [int64_t], whose division truncates towards zero ([Z.quot]).
    Halving cannot overflow.  [fuel] bounds the number of iterations. *)
Fixpoint storage_cache_limit_loop (fuel : nat) (is_percent : bool)
    (mem_limit storage_cache_limit : Z) : option Z :=
  if negb is_percent && (storage_cache_limit >? mem_limit ÷ 2) then
    match fuel with
    | O => None
    | S fuel' =>
        storage_cache_limit_loop fuel' is_percent mem_limit
          (storage_cache_limit ÷ 2)
    end
  else Some storage_cache_limit.

Definition init_pipeline_task_scheduler (config : Config) (w : World) : Fn :=
  call (
    let executors_size := pipeline_executor_size config in
    let executors_size :=
      if executors_size <=? 0 then CpuInfo_num_cores w else executors_size in
    effect (Static "std::make_shared<pipeline::TaskQueue>" [AInt executors_size]);;
    effect (Static "std::make_shared<pipeline::BlockedTaskScheduler>" []);;
    new _pipeline_task_scheduler [AThis];;
    RETURN_IF_ERROR
      (collab _pipeline_task_scheduler "start" [] (pipeline_task_scheduler_start w));;
    Return OK).

Definition _init_mem_env (fuel : nat) (config : Config) (w : World) : Fn :=
  call (
    let is_percent := false in
    (* 1. init mem tracker *)
    new _orphan_mem_tracker [AStr "Orphan"];;
    effect (Static "thread_context()->thread_mem_tracker_mgr->init" []);;
    (if tcmalloc_hook_compiled w && enable_tcmalloc_hook config
     then effect (Static "init_hook" []) else skip);;
    (* 2. init buffer pool *)
    if negb (IsPowerOf2 (min_buffer_size config)) then
      Return (InternalError ("Config min_buffer_size must be a power-of-two: "
                             +:+ pretty (min_buffer_size config)))
    else
    (* 3. init storage page cache *)
    let parsed :=
      parse_mem_spec w (storage_page_cache_limit config) (MemInfo_mem_limit w)
        (MemInfo_physical_mem w) is_percent in
    let storage_cache_limit := parsed.1 in
    let is_percent := parsed.2 in
    storage_cache_limit ←
      loop (storage_cache_limit_loop fuel is_percent (MemInfo_mem_limit w)
              storage_cache_limit);
    let index_percentage := index_page_cache_percentage config in
    let num_shards := to_uint32 (storage_page_cache_shard_size config) in
    effect (CreateGlobalCache storage_cache_limit index_percentage num_shards);;
    let fd_number := to_uint64 (min_file_descriptor_number config) in
    let fd_number :=
      if negb (getrlimit_ret w =? 0) then fd_number
      else to_uint64 (rlim_cur w) in
    let segment_cache_capacity := fd_number / 3 * 2 in
    effect (CreateGlobalInstance segment_cache_capacity);;
    (* 4. init other managers *)
    RETURN_IF_ERROR (collab _tmp_file_mgr "init" [] (tmp_file_mgr_init w));;
    RETURN_IF_ERROR (collab _block_spill_mgr "init" [] (block_spill_mgr_init w));;
    (* 5. init chunk allocator *)
    if negb (IsPowerOf2 (min_chunk_reserved_bytes config)) then
      Return (InternalError
                ("Config min_chunk_reserved_bytes must be a power-of-two: "
                 +:+ pretty (min_chunk_reserved_bytes config)))
    else
    let parsed :=
      parse_mem_spec w (chunk_reserved_bytes_limit config) (MemInfo_mem_limit w)
        (MemInfo_physical_mem w) is_percent in
    let chunk_reserved_bytes_limit := parsed.1 in
    let chunk_reserved_bytes_limit :=
      RoundDown chunk_reserved_bytes_limit (min_chunk_reserved_bytes config) in
    effect (ChunkAllocatorInit chunk_reserved_bytes_limit);;
    Return OK).

(** Modelled from the spec: [set_serial_download_cache_thread_token] is
    defined in exec_env.h, outside this file.  The spec has it "allocate
    one dedicated serial worker token" of the download-cache pool. *)
Definition set_serial_download_cache_thread_token : Body unit :=
  effect (Static "ThreadPool::new_token" [AStr "SERIAL"]);;
  modify issue_token.

(** [new char[n]] with a negative [n] throws (the array length is
    invalid) and the exception leaves [init]; running out of memory, which
    any [new] of this file can, is not modelled. *)
Definition init_download_cache_buf (config : Config) : Body unit :=
  (if download_cache_buffer_size config <? 0 then throw else skip);;
  token ← gets _serial_download_cache_thread_token;
  match token with
  | Some t =>
      modify (fun s =>
        set_download_cache_buf_map
          (<[t := download_cache_buffer_size config]> (_download_cache_buf_map s)) s)
  | None => skip
  end.

Definition init_download_cache_required_components (config : Config) : Body unit :=
  let pool := mkWorkerPool "DownloadCacheThreadPool" 1
                (download_cache_thread_pool_thread_num config)
                (download_cache_thread_pool_queue_size config) in
  effect (Build pool);;
  modify (set_download_cache_thread_pool pool);;
  set_serial_download_cache_thread_token;;
  init_download_cache_buf config.

Definition _register_metrics : Body unit :=
  effect (RegisterHook "send_batch_thread_pool_thread_num");;
  effect (RegisterHook "send_batch_thread_pool_queue_size");;
  effect (RegisterHook "download_cache_thread_pool_thread_num");;
  effect (RegisterHook "download_cache_thread_pool_queue_size").

Definition _deregister_metrics (s : ExecEnv) : ExecEnv :=
  let s := emit (DeregisterHook "scanner_thread_pool_queue_size") s in
  let s := emit (DeregisterHook "send_batch_thread_pool_thread_num") s in
  let s := emit (DeregisterHook "send_batch_thread_pool_queue_size") s in
  let s := emit (DeregisterHook "download_cache_thread_pool_thread_num") s in
  emit (DeregisterHook "download_cache_thread_pool_queue_size") s.

Definition _init (fuel : nat) (config : Config) (w : World)
    (store_paths : list StorePath) : Fn :=
  call (
    (* Only init once before be destroyed *)
    is_init ← gets _is_init;
    if (is_init : bool) then Return OK else
    modify (set_store_paths store_paths);;
    (* path_name => path_index *)
    modify (fun s =>
      set_store_path_map
        (store_path_map_loop store_paths 0%nat (_store_path_map s)) s);;

    new _external_scan_context_mgr [AThis];;
    new _vstream_mgr [];;
    new _result_mgr [];;
    new _result_queue_mgr [];;
    new _backend_client_cache [AInt (max_client_cache_size_per_host config)];;
    new _frontend_client_cache [AInt (max_client_cache_size_per_host config)];;
    new _broker_client_cache [AInt (max_client_cache_size_per_host config)];;
    new _thread_mgr [];;

    (let pool := mkWorkerPool "SendBatchThreadPool"
                   (send_batch_thread_pool_thread_num config)
                   (send_batch_thread_pool_thread_num config)
                   (send_batch_thread_pool_queue_size config) in
     effect (Build pool);;
     modify (set_send_batch_thread_pool pool));;

    init_download_cache_required_components config;;

    RETURN_IF_ERROR (invoke (init_pipeline_task_scheduler config w));;
    new _scanner_scheduler [];;

    new _cgroups_mgr [AThis; AStr (doris_cgroups config)];;
    new _fragment_mgr [AThis];;
    new _result_cache [AInt (query_cache_max_size_mb config);
                       AInt (query_cache_elasticity_size_mb config)];;
    new _master_info [];;
    new _load_path_mgr [AThis];;
    new _tmp_file_mgr [AThis];;
    (effect (Static "BfdParser::create" []);; modify (set_live _bfd_parser true));;
    new _broker_mgr [AThis];;
    new _load_channel_mgr [];;
    new _load_stream_mgr [];;
    new _new_load_stream_mgr [];;
    new _internal_client_cache [];;
    new _function_client_cache [];;
    new _stream_load_executor [AThis];;
    new _routine_load_task_executor [AThis];;
    new _small_file_mgr [AThis; AStr (small_file_dir config)];;
    new _storage_policy_mgr [];;
    store_paths' ← gets _store_paths;
    new _block_spill_mgr [APaths store_paths'];;

    collab _backend_client_cache "init_metrics" [AStr "backend"] tt;;
    collab _frontend_client_cache "init_metrics" [AStr "frontend"] tt;;
    collab _broker_client_cache "init_metrics" [AStr "broker"] tt;;
    collab _result_mgr "init" [] tt;;
    collab _cgroups_mgr "init_cgroups" [] tt;;
    status ← collab _load_path_mgr "init" [] (load_path_mgr_init w);
    (if negb (ok status) then exit (-1) else skip);;
    collab _broker_mgr "init" [] tt;;
    collab _small_file_mgr "init" [] tt;;
    collab _scanner_scheduler "init" [AThis] tt;;

    invoke (_init_mem_env fuel config w);;

    RETURN_IF_ERROR
      (collab _load_channel_mgr "init" [AInt (MemInfo_mem_limit w)]
         (load_channel_mgr_init w (MemInfo_mem_limit w)));;
    new _heartbeat_flags [];;
    _register_metrics;;
    modify (set_is_init true);;
    Return OK).

Definition _destroy (s : ExecEnv) : ExecEnv :=
  (* Only destroy once after init *)
  if negb (_is_init s) then s else
  let s := _deregister_metrics s in
  let s := SAFE_DELETE _internal_client_cache s in
  let s := SAFE_DELETE _function_client_cache s in
  let s := SAFE_DELETE _load_stream_mgr s in
  let s := SAFE_DELETE _load_channel_mgr s in
  let s := SAFE_DELETE _broker_mgr s in
  let s := SAFE_DELETE _bfd_parser s in
  let s := SAFE_DELETE _tmp_file_mgr s in
  let s := SAFE_DELETE _load_path_mgr s in
  let s := SAFE_DELETE _master_info s in
  let s := SAFE_DELETE _fragment_mgr s in
  let s := SAFE_DELETE _pipeline_task_scheduler s in
  let s := SAFE_DELETE _cgroups_mgr s in
  let s := SAFE_DELETE _thread_mgr s in
  let s := SAFE_DELETE _broker_client_cache s in
  let s := SAFE_DELETE _frontend_client_cache s in
  let s := SAFE_DELETE _backend_client_cache s in
  let s := SAFE_DELETE _result_mgr s in
  let s := SAFE_DELETE _result_queue_mgr s in
  let s := SAFE_DELETE _stream_load_executor s in
  let s := SAFE_DELETE _routine_load_task_executor s in
  let s := SAFE_DELETE _external_scan_context_mgr s in
  let s := SAFE_DELETE _heartbeat_flags s in
  let s := SAFE_DELETE _scanner_scheduler s in
  set_is_init false s.

(** [ExecEnv::init(env, store_paths)] and [ExecEnv::destroy(env)]. *)
Definition init (fuel : nat) (config : Config) (w : World)
    (env : ExecEnv) (store_paths : list StorePath) : Result * ExecEnv :=
  _init fuel config w store_paths env.

Definition destroy (env : ExecEnv) : ExecEnv := _destroy env.

(** ** Vocabulary of the statements below *)

(** An upper bound on the number of halvings of [v]. *)
Definition halvings_bound (v : Z) : nat :=
  if v <=? 0 then 0%nat else S (Z.to_nat (Z.log2 v)).

(** What the first [parse_mem_spec] call of [_init_mem_env] resolves the
    storage-page-cache spec to: the byte count and the percentage flag. *)
Definition storage_spec (config : Config) (w : World) : Z * bool :=
  parse_mem_spec w (storage_page_cache_limit config) (MemInfo_mem_limit w)
    (MemInfo_physical_mem w) false.

(** What the second call resolves the chunk-reservation spec to; it is
    handed the flag the first call left behind. *)
Definition chunk_spec (config : Config) (w : World) : Z * bool :=
  parse_mem_spec w (chunk_reserved_bytes_limit config) (MemInfo_mem_limit w)
    (MemInfo_physical_mem w) (storage_spec config w).2.

(** The fuel is enough for the halving loop of this configuration. *)
Definition enough_fuel (fuel : nat) (config : Config) (w : World) : Prop :=
  (halvings_bound (storage_spec config w).1 <= fuel)%nat.

(** Reading a trace. *)
Definition page_cache_capacity (e : Event) : option Z :=
  match e with CreateGlobalCache c _ _ => Some c | _ => None end.

Definition page_cache_capacities (tr : list Event) : list Z :=
  omap page_cache_capacity tr.

Definition chunk_reservation (e : Event) : option Z :=
  match e with ChunkAllocatorInit c => Some c | _ => None end.

Definition chunk_reservations (tr : list Event) : list Z :=
  omap chunk_reservation tr.

Definition deleted (e : Event) : option Member :=
  match e with DeleteObj m => Some m | _ => None end.

Definition deletions (tr : list Event) : list Member := omap deleted tr.

(** [p] occurs at position [n] of the list and nowhere after it. *)
Definition last_occurrence (store_paths : list StorePath) (p : string)
    (n : nat) : Prop :=
  (path <$> store_paths) !! n = Some p /\
  forall k, (n < k)%nat -> (path <$> store_paths) !! k <> Some p.

(** [p] occurs at position [n] of the list and nowhere before it. *)
Definition first_occurrence (store_paths : list StorePath) (p : string)
    (n : nat) : Prop :=
  (path <$> store_paths) !! n = Some p /\
  forall k, (k < n)%nat -> (path <$> store_paths) !! k <> Some p.

Definition absent (store_paths : list StorePath) (p : string) : Prop :=
  forall n, (path <$> store_paths) !! n <> Some p.

(** The hooks [_deregister_metrics] unbinds, in its order. *)
Definition deregistered_hooks : list Event :=
  [DeregisterHook "scanner_thread_pool_queue_size";
   DeregisterHook "send_batch_thread_pool_thread_num";
   DeregisterHook "send_batch_thread_pool_queue_size";
   DeregisterHook "download_cache_thread_pool_thread_num";
   DeregisterHook "download_cache_thread_pool_queue_size"].

(** The members [_destroy] hands to [SAFE_DELETE], in its order. *)
Definition destroy_order : list Member :=
  [_internal_client_cache; _function_client_cache; _load_stream_mgr;
   _load_channel_mgr; _broker_mgr; _bfd_parser; _tmp_file_mgr;
   _load_path_mgr; _master_info; _fragment_mgr; _pipeline_task_scheduler;
   _cgroups_mgr; _thread_mgr; _broker_client_cache; _frontend_client_cache;
   _backend_client_cache; _result_mgr; _result_queue_mgr;
   _stream_load_executor; _routine_load_task_executor;
   _external_scan_context_mgr; _heartbeat_flags; _scanner_scheduler].

Definition released (m : Member) : bool :=
  existsb (Member_eqb m) destroy_order.

(** The release order as the specification lists it: "RPC client caches
    (internal, function), both load-stream managers, broker manager, ...",
    where the two load-stream managers are the legacy and the new one of
    the construction step. *)
Definition listed_release_order : list Member :=
  [_internal_client_cache; _function_client_cache; _load_stream_mgr;
   _new_load_stream_mgr; _broker_mgr; _bfd_parser; _tmp_file_mgr;
   _load_path_mgr; _master_info; _fragment_mgr; _pipeline_task_scheduler;
   _cgroups_mgr; _thread_mgr; _broker_client_cache; _frontend_client_cache;
   _backend_client_cache; _result_mgr; _result_queue_mgr;
   _stream_load_executor; _routine_load_task_executor;
   _external_scan_context_mgr; _heartbeat_flags; _scanner_scheduler].

(** [SAFE_DELETE] applied to a list of members, first to last. *)
Definition delete_all (ms : list Member) (s : ExecEnv) : ExecEnv :=
  fold_left (fun s m => SAFE_DELETE m s) ms s.

Fixpoint distinct (ms : list Member) : bool :=
  match ms with
  | [] => true
  | m :: rest => negb (existsb (Member_eqb m) rest) && distinct rest
  end.

(** [base] with the events [es] appended one at a time, the way the
    statements of a body extend the trace. *)
Definition snoc_all (base : list Event) (es : list Event) : list Event :=
  fold_left (fun acc e => acc ++ [e]) es base.

(** More readers of a trace. *)
Definition segment_capacity (e : Event) : option Z :=
  match e with CreateGlobalInstance c => Some c | _ => None end.

Definition segment_capacities (tr : list Event) : list Z :=
  omap segment_capacity tr.

Definition registration (e : Event) : option string :=
  match e with RegisterHook h => Some h | _ => None end.

Definition registrations (tr : list Event) : list string :=
  omap registration tr.

Definition deregistration (e : Event) : option string :=
  match e with DeregisterHook h => Some h | _ => None end.

Definition deregistrations (tr : list Event) : list string :=
  omap deregistration tr.

(** The methods called on member [m], in order. *)
Definition call_on (m : Member) (e : Event) : option string :=
  match e with
  | Call m' method _ => if Member_eqb m' m then Some method else None
  | _ => None
  end.

Definition calls_on (m : Member) (tr : list Event) : list string :=
  omap (call_on m) tr.

(** Every [Call] of the trace is on a member that an earlier [New] of the
    same trace (or of [built]) has constructed. *)
Fixpoint calls_after_new (built : list Member) (tr : list Event) : bool :=
  match tr with
  | [] => true
  | New m _ :: rest => calls_after_new (m :: built) rest
  | Call m _ _ :: rest =>
      existsb (Member_eqb m) built && calls_after_new built rest
  | _ :: rest => calls_after_new built rest
  end.

(** The caller got [Status::OK()]. *)
Definition succeeded (r : Result) : bool :=
  match r with Returned st => ok st | _ => false end.

(** The members [_init] constructs before its first check of a status. *)
Definition built_before_first_check : list Member :=
  [_external_scan_context_mgr; _vstream_mgr; _result_mgr; _result_queue_mgr;
   _backend_client_cache; _frontend_client_cache; _broker_client_cache;
   _thread_mgr; _pipeline_task_scheduler].

(** The members [_init] constructs before it allocates the download-cache
    buffer, the first statement of it that can fail. *)
Definition built_before_download_cache_buf : list Member :=
  [_external_scan_context_mgr; _vstream_mgr; _result_mgr; _result_queue_mgr;
   _backend_client_cache; _frontend_client_cache; _broker_client_cache;
   _thread_mgr].

(** The hooks [_register_metrics] binds, in its order. *)
Definition registered_hooks : list string :=
  ["send_batch_thread_pool_thread_num"; "send_batch_thread_pool_queue_size";
   "download_cache_thread_pool_thread_num";
   "download_cache_thread_pool_queue_size"].

(** ** A concrete configuration and surroundings, used in the examples *)

Definition sample_config_with (min_buffer : Z) (storage_limit : string)
    (min_chunk : Z) (chunk_limit : string) : Config :=
  mkConfig 10 64 102400 1 102400 10485760 0 "" 256 128 "/small_files" false
    min_buffer storage_limit 10 16 60000 min_chunk chunk_limit.

Definition sample_config : Config := sample_config_with 1024 "20%" 1024 "20%".

(** [sample_config] with another size of the download-cache buffer. *)
Definition sample_config_buffer (size : Z) : Config :=
  mkConfig 10 64 102400 1 102400 size 0 "" 256 128 "/small_files" false
    1024 "20%" 10 16 60000 1024 "20%".

(** A parser for a few bare byte counts and percentages, enough for the
    examples; the real one is [ParseUtil::parse_mem_spec]. *)
Definition sample_parse (spec : string) (parent_limit physical_mem : Z)
    (is_percent : bool) : Z * bool :=
  if String.eqb spec "20%" then (parent_limit * 20 / 100, true)
  else if String.eqb spec "50%" then (parent_limit * 50 / 100, true)
  else if String.eqb spec "0" then (0, false)
  else if String.eqb spec "130" then (130, false)
  else if String.eqb spec "700" then (700, false)
  else if String.eqb spec "2500" then (2500, false)
  else (-1, false).

Definition sample_world_with (mem_limit : Z)
    (pipeline load_path tmp_file block_spill load_channel : Status) : World :=
  mkWorld 8 mem_limit 2000 sample_parse 0 3000 false
    pipeline load_path tmp_file block_spill (fun _ => load_channel).

Definition sample_world : World := sample_world_with 1000 OK OK OK OK OK.

Definition sample_paths : list StorePath :=
  [mkStorePath "/a" 100; mkStorePath "/b" 200; mkStorePath "/a" 300].

(** Surroundings in which [getrlimit] answers [ret] and the soft limit
    [cur]; everything else as in [sample_world]. *)
Definition sample_world_rlimit (ret cur : Z) : World :=
  mkWorld 8 1000 2000 sample_parse ret cur false OK OK OK OK (fun _ => OK).

(** ** Running the bodies on a symbolic environment *)

Ltac exec :=
  cbv beta iota zeta delta
    [_init _init_mem_env init_pipeline_task_scheduler
     init_download_cache_required_components init_download_cache_buf
     set_serial_download_cache_thread_token _register_metrics
     call invoke mbind mret Body_bind Body_ret gets modify skip Return exit
     throw loop effect new collab RETURN_IF_ERROR
     set_is_init set_store_paths set_store_path_map set_live
     set_send_batch_thread_pool set_download_cache_thread_pool issue_token
     set_download_cache_buf_map emit
     _is_init _store_paths _store_path_map live _send_batch_thread_pool
     _download_cache_thread_pool _serial_download_cache_thread_token
     _download_cache_buf_map tokens_issued trace
     negb];
  cbn [fst snd ok].

(** * Properties *)

(** ** The halving loop of the storage page cache *)

Section HalvingLoop.

Lemma gtb_true (n m : Z) : m < n -> (n >? m) = true.
Proof. intros H. rewrite Z.gtb_ltb. now apply Z.ltb_lt. Qed.

Lemma gtb_false (n m : Z) : n <= m -> (n >? m) = false.
Proof. intros H. rewrite Z.gtb_ltb. now apply Z.ltb_ge. Qed.

(** A percentage-based value never enters the loop. *)
Lemma storage_cache_limit_loop_percent (fuel : nat) (mem_limit v : Z) :
  storage_cache_limit_loop fuel true mem_limit v = Some v.
Proof. destruct fuel; reflexivity. Qed.

Lemma storage_cache_limit_loop_fits (fuel : nat) (p : bool) (mem_limit v : Z) :
  v <= mem_limit ÷ 2 ->
  storage_cache_limit_loop fuel p mem_limit v = Some v.
Proof.
  intros Hv. destruct fuel; simpl;
    rewrite (gtb_false _ _ Hv), andb_false_r; reflexivity.
Qed.

Lemma storage_cache_limit_loop_step (fuel : nat) (mem_limit v : Z) :
  mem_limit ÷ 2 < v ->
  storage_cache_limit_loop (S fuel) false mem_limit v
  = storage_cache_limit_loop fuel false mem_limit (v ÷ 2).
Proof.
  intros Hv. simpl. now rewrite (gtb_true _ _ Hv).
Qed.

Lemma quot2_lt (v : Z) : 0 < v -> 0 <= v ÷ 2 < v.
Proof.
  intros Hv. rewrite Z.quot_div_nonneg by lia.
  split; [apply Z.div_pos; lia | apply Z.div_lt; lia].
Qed.

Lemma halvings_bound_quot2 (v : Z) :
  0 < v -> (S (halvings_bound (v ÷ 2)) <= halvings_bound v)%nat.
Proof.
  intros Hv. unfold halvings_bound.
  rewrite Z.quot_div_nonneg by lia.
  destruct (Z.leb_spec v 0) as [?|_]; [lia|].
  destruct (Z.leb_spec (v / 2) 0) as [Hz|Hp]; [lia|].
  assert (H2 : 2 <= v).
  { destruct (Z.lt_ge_cases v 2) as [Hlt|]; [|lia].
    rewrite Z.div_small in Hp; lia. }
  pose proof (Z.log2_double (v / 2) Hp) as Hd.
  pose proof (Z.log2_le_mono (2 * (v / 2)) v) as Hm.
  pose proof (Z.mul_div_le v 2).
  pose proof (Z.log2_nonneg (v / 2)).
  lia.
Qed.

Lemma quot_pow2_succ (v : Z) (k : nat) :
  v ÷ 2 ÷ 2 ^ Z.of_nat k = v ÷ 2 ^ Z.of_nat (S k).
Proof.
  rewrite Nat2Z.inj_succ, Z.pow_succ_r by lia.
  apply Z.quot_quot; [lia|]. apply Z.pow_nonzero; lia.
Qed.

(** With [0 <= mem_limit / 2] the loop on an absolute value stops after
    [k] halvings, where [k] is the least number with
    [v / 2^k <= mem_limit / 2]; any fuel from [k] on gives that result,
    and [k] is at most [halvings_bound v]. *)
Lemma storage_cache_limit_loop_absolute (mem_limit : Z) :
  0 <= mem_limit ÷ 2 ->
  forall (n : nat) (v : Z), v <= Z.of_nat n ->
  exists k : nat,
    (k <= halvings_bound v)%nat /\
    (forall fuel, (k <= fuel)%nat ->
       storage_cache_limit_loop fuel false mem_limit v
       = Some (v ÷ 2 ^ Z.of_nat k)) /\
    v ÷ 2 ^ Z.of_nat k <= mem_limit ÷ 2 /\
    (forall j, (j < k)%nat -> mem_limit ÷ 2 < v ÷ 2 ^ Z.of_nat j).
Proof.
  intros Hhalf. induction n as [|n IH]; intros v Hn.
  - exists 0%nat. simpl. rewrite Z.quot_1_r.
    repeat split; [lia| |lia|lia].
    intros fuel _. apply storage_cache_limit_loop_fits. lia.
  - destruct (Z.le_gt_cases v (mem_limit ÷ 2)) as [Hfit|Hbig].
    + exists 0%nat. simpl. rewrite Z.quot_1_r.
      repeat split; [lia| |lia|lia].
      intros fuel _. now apply storage_cache_limit_loop_fits.
    + assert (Hpos : 0 < v) by lia.
      pose proof (quot2_lt v Hpos) as Hq.
      destruct (IH (v ÷ 2)) as (k & Hb & Hrun & Hle & Hmin); [lia|].
      exists (S k). rewrite <- quot_pow2_succ.
      repeat split.
      * pose proof (halvings_bound_quot2 v Hpos). lia.
      * intros [|fuel] Hf; [lia|].
        rewrite storage_cache_limit_loop_step by lia.
        apply Hrun. lia.
      * exact Hle.
      * intros [|j] Hj; [simpl; rewrite Z.quot_1_r; lia|].
        rewrite <- quot_pow2_succ. apply Hmin. lia.
Qed.

(** Below [-1] the half limit is negative and the loop keeps asking for
    another iteration once the value has reached [0]. *)
Lemma storage_cache_limit_loop_zero_spins (fuel : nat) (mem_limit : Z) :
  mem_limit <= -2 ->
  storage_cache_limit_loop fuel false mem_limit 0 = None.
Proof.
  intros Hneg.
  assert (Hhalf : mem_limit ÷ 2 < 0).
  { rewrite <- (Z.opp_involutive mem_limit), Z.quot_opp_l by lia.
    assert (0 < - mem_limit ÷ 2); [|lia].
    rewrite Z.quot_div_nonneg by lia.
    apply Z.div_str_pos. lia. }
  induction fuel as [|fuel IH].
  - simpl. now rewrite (gtb_true _ _ Hhalf).
  - rewrite storage_cache_limit_loop_step by lia. exact IH.
Qed.

(** An [int64_t] needs at most 63 halvings. *)
Lemma halvings_bound_int64 (v : Z) : v < 2 ^ 63 -> (halvings_bound v <= 63)%nat.
Proof.
  intros Hv. unfold halvings_bound.
  destruct (Z.leb_spec v 0) as [|Hpos]; [lia|].
  assert (Z.log2 v < 63) by (apply Z.log2_lt_pow2; lia).
  pose proof (Z.log2_nonneg v). lia.
Qed.

End HalvingLoop.

(** ** The path -> index map *)

Section StorePathMap.

Lemma last_occurrence_cons (sp : StorePath) (rest : list StorePath)
    (p : string) (n : nat) :
  last_occurrence (sp :: rest) p n <->
  (exists n', n = S n' /\ last_occurrence rest p n') \/
  (n = 0%nat /\ path sp = p /\ absent rest p).
Proof.
  unfold last_occurrence, absent. split.
  - intros [Hat Hafter]. destruct n as [|n'].
    + right. simpl in Hat. injection Hat as Hat.
      split; [reflexivity|]. split; [exact Hat|].
      intros k. apply (Hafter (S k)). lia.
    + left. exists n'. repeat split; [exact Hat|].
      intros k Hk. apply (Hafter (S k)). lia.
  - intros [(n' & -> & Hat & Hafter)|(-> & <- & Hnone)].
    + split; [exact Hat|]. intros [|k] Hk; [lia|]. apply Hafter. lia.
    + split; [reflexivity|]. intros [|k] Hk; [lia|]. apply Hnone.
Qed.

Lemma absent_cons (sp : StorePath) (rest : list StorePath) (p : string) :
  absent (sp :: rest) p <-> path sp <> p /\ absent rest p.
Proof.
  unfold absent. split.
  - intros H. split.
    + intros E. apply (H 0%nat). simpl. congruence.
    + intros n. apply (H (S n)).
  - intros [Hne Hrest] [|n]; simpl; [congruence|apply Hrest].
Qed.

(** What the loop leaves in the map: a path of the list is mapped to the
    position of its last occurrence (counted from the start index), any
    other key keeps what it had. *)
Lemma store_path_map_loop_lookup (store_paths : list StorePath) :
  forall (i : nat) (m : gmap string nat) (p : string) (j : nat),
    store_path_map_loop store_paths i m !! p = Some j <->
    (exists n, j = (i + n)%nat /\ last_occurrence store_paths p n) \/
    (absent store_paths p /\ m !! p = Some j).
Proof.
  induction store_paths as [|sp rest IH]; intros i m p j; simpl.
  - split.
    + intros H. right. split; [|exact H]. intros n. discriminate.
    + intros [(n & _ & Hat & _)|[_ H]]; [discriminate|exact H].
  - rewrite IH. setoid_rewrite last_occurrence_cons. rewrite absent_cons.
    destruct (decide (path sp = p)) as [Heq|Hne].
    + rewrite Heq, lookup_insert_eq. split.
      * intros [(n & -> & Hlast)|[Habs Hj]].
        -- left. exists (S n). split; [lia|]. left. eauto.
        -- left. exists 0%nat. injection Hj as <-.
           split; [lia|]. right. auto.
      * intros [(n & -> & [(n' & -> & Hlast)|(-> & _ & Habs)])|[[Hne _] _]].
        -- left. exists n'. split; [lia|exact Hlast].
        -- right. split; [exact Habs|]. now rewrite Nat.add_0_r.
        -- congruence.
    + rewrite lookup_insert_ne by exact Hne. split.
      * intros [(n & -> & Hlast)|[Habs Hj]].
        -- left. exists (S n). split; [lia|]. left. eauto.
        -- right. auto.
      * intros [(n & -> & [(n' & -> & Hlast)|(_ & Heq & _)])|[[_ Habs] Hj]].
        -- left. exists n'. split; [lia|exact Hlast].
        -- congruence.
        -- right. auto.
Qed.

(** In a list without repeated paths every occurrence is the last one. *)
Lemma NoDup_last_occurrence (store_paths : list StorePath) (p : string)
    (n : nat) :
  NoDup (path <$> store_paths) ->
  (path <$> store_paths) !! n = Some p ->
  last_occurrence store_paths p n.
Proof.
  intros Hnd Hat. split; [exact Hat|].
  intros k Hk Hat'.
  pose proof (NoDup_lookup _ _ _ _ Hnd Hat Hat'). lia.
Qed.

End StorePathMap.


(** ** The helpers modelled from the specification *)

Section BitUtil.

Lemma IsPowerOf2_spec (value : Z) :
  IsPowerOf2 value = true <-> exists k, 0 <= k /\ value = 2 ^ k.
Proof.
  unfold IsPowerOf2. rewrite andb_true_iff, Z.ltb_lt, Z.eqb_eq. split.
  - intros [_ H]. exists (Z.log2 value). split; [apply Z.log2_nonneg|exact H].
  - intros (k & Hk & ->). split.
    + apply Z.pow_pos_nonneg; lia.
    + now rewrite Z.log2_pow2.
Qed.

Lemma IsPowerOf2_pos (value : Z) : IsPowerOf2 value = true -> 0 < value.
Proof.
  unfold IsPowerOf2. rewrite andb_true_iff, Z.ltb_lt. tauto.
Qed.

(** [RoundDown value factor] is the greatest multiple of [factor] that
    does not exceed [value]. *)
Lemma RoundDown_spec (value factor : Z) :
  0 < factor ->
  (factor | RoundDown value factor) /\
  RoundDown value factor <= value < RoundDown value factor + factor.
Proof.
  intros Hf. unfold RoundDown. split.
  - apply Z.divide_factor_r.
  - pose proof (Z.div_mod value factor) as Hdm.
    pose proof (Z.mod_pos_bound value factor Hf). lia.
Qed.

End BitUtil.

(** ** The memory environment *)

Section MemEnv.

Variables (config : Config) (w : World).

Lemma quot2_nonneg (z : Z) : 0 <= z -> 0 <= z ÷ 2 /\ 2 * (z ÷ 2) <= z.
Proof.
  intros Hz. split; [apply Z.quot_pos; lia|].
  apply Z.mul_quot_le; lia.
Qed.

(** With a non-negative memory limit and enough fuel the halving loop of
    this configuration finishes. *)
Lemma storage_cache_limit_loop_finishes (fuel : nat) :
  0 <= MemInfo_mem_limit w ->
  enough_fuel fuel config w ->
  exists r,
    storage_cache_limit_loop fuel (storage_spec config w).2
      (MemInfo_mem_limit w) (storage_spec config w).1 = Some r.
Proof.
  intros HL Hfuel. unfold enough_fuel in Hfuel.
  destruct (storage_spec config w) as [v [|]]; simpl in *.
  - exists v. apply storage_cache_limit_loop_percent.
  - destruct (storage_cache_limit_loop_absolute (MemInfo_mem_limit w)
                (proj1 (quot2_nonneg _ HL)) (Z.to_nat v) v ltac:(lia))
      as (k & Hb & Hrun & _).
    eexists. apply Hrun. lia.
Qed.

(** Whatever [int64_t] the parser resolves the spec to, 64 iterations are
    enough. *)
Lemma enough_fuel_int64 :
  (storage_spec config w).1 < 2 ^ 63 -> enough_fuel 64 config w.
Proof.
  intros Hv. unfold enough_fuel.
  pose proof (halvings_bound_int64 _ Hv). lia.
Qed.

(** The page cache is created with what the loop leaves, whatever happens
    in the later steps. *)
Lemma _init_mem_env_page_cache (fuel : nat) (s : ExecEnv) (r : Z) :
  IsPowerOf2 (min_buffer_size config) = true ->
  storage_cache_limit_loop fuel (storage_spec config w).2
    (MemInfo_mem_limit w) (storage_spec config w).1 = Some r ->
  page_cache_capacities (trace (_init_mem_env fuel config w s).2)
  = page_cache_capacities (trace s) ++ [r].
Proof.
  intros Hpow Hloop. unfold storage_spec in Hloop. destruct s. exec.
  rewrite Hpow, Hloop.
  destruct (tcmalloc_hook_compiled w && enable_tcmalloc_hook config);
    destruct (ok (tmp_file_mgr_init w));
    try destruct (ok (block_spill_mgr_init w));
    try destruct (IsPowerOf2 (min_chunk_reserved_bytes config));
    exec; unfold page_cache_capacities;
    rewrite ?omap_app; simpl; rewrite ?app_nil_r; reflexivity.
Qed.

(** Without a finished loop no page cache is created. *)
Lemma _init_mem_env_spins (fuel : nat) (s : ExecEnv) :
  IsPowerOf2 (min_buffer_size config) = true ->
  storage_cache_limit_loop fuel (storage_spec config w).2
    (MemInfo_mem_limit w) (storage_spec config w).1 = None ->
  (_init_mem_env fuel config w s).1 = Diverged /\
  page_cache_capacities (trace (_init_mem_env fuel config w s).2)
  = page_cache_capacities (trace s).
Proof.
  intros Hpow Hloop. unfold storage_spec in Hloop. destruct s. exec.
  rewrite Hpow, Hloop.
  destruct (tcmalloc_hook_compiled w && enable_tcmalloc_hook config);
    exec; unfold page_cache_capacities;
    rewrite ?omap_app; simpl; rewrite ?app_nil_r; split; reflexivity.
Qed.

(** Step 5 once it is reached: the two outcomes of the granularity check. *)
Lemma _init_mem_env_chunk_allocator (fuel : nat) (s : ExecEnv) (r : Z) :
  IsPowerOf2 (min_buffer_size config) = true ->
  storage_cache_limit_loop fuel (storage_spec config w).2
    (MemInfo_mem_limit w) (storage_spec config w).1 = Some r ->
  ok (tmp_file_mgr_init w) = true ->
  ok (block_spill_mgr_init w) = true ->
  (_init_mem_env fuel config w s).1
  = (if IsPowerOf2 (min_chunk_reserved_bytes config) then Returned OK
     else Returned (InternalError
            ("Config min_chunk_reserved_bytes must be a power-of-two: "
             +:+ pretty (min_chunk_reserved_bytes config)))) /\
  chunk_reservations (trace (_init_mem_env fuel config w s).2)
  = chunk_reservations (trace s) ++
    (if IsPowerOf2 (min_chunk_reserved_bytes config)
     then [RoundDown (chunk_spec config w).1 (min_chunk_reserved_bytes config)]
     else []).
Proof.
  intros Hpow Hloop Htmp Hspill. unfold chunk_spec, storage_spec in *.
  destruct s. exec. rewrite Hpow, Hloop, Htmp, Hspill.
  destruct (tcmalloc_hook_compiled w && enable_tcmalloc_hook config);
    destruct (IsPowerOf2 (min_chunk_reserved_bytes config));
    exec; unfold chunk_reservations;
    rewrite ?omap_app; simpl; rewrite ?app_nil_r; split; reflexivity.
Qed.

(** A granularity that is not a power of two: no run of [_init_mem_env]
    reports success or initialises the chunk allocator. *)
Lemma _init_mem_env_bad_granularity (fuel : nat) (s : ExecEnv) :
  IsPowerOf2 (min_chunk_reserved_bytes config) = false ->
  (_init_mem_env fuel config w s).1 <> Returned OK /\
  chunk_reservations (trace (_init_mem_env fuel config w s).2)
  = chunk_reservations (trace s).
Proof.
  intros Hbad. destruct s. exec. rewrite Hbad.
  destruct (tcmalloc_hook_compiled w && enable_tcmalloc_hook config);
    destruct (IsPowerOf2 (min_buffer_size config));
    try destruct (storage_cache_limit_loop _ _ _ _);
    try destruct (tmp_file_mgr_init w);
    try destruct (block_spill_mgr_init w);
    exec; unfold chunk_reservations;
    rewrite ?omap_app; simpl; rewrite ?app_nil_r; split;
    solve [reflexivity | discriminate].
Qed.

End MemEnv.

(** ** Claims on the resource budget *)

(** With a memory limit of [-1] the half limit is [0] (truncating
    division), so the loop still finishes; the loop first fails to finish
    at [-2]. *)
Lemma storage_cache_limit_loop_minus_one (fuel : nat) (v : Z) :
  (halvings_bound v <= fuel)%nat ->
  exists r, storage_cache_limit_loop fuel false (-1) v = Some r.
Proof.
  intros Hf.
  destruct (storage_cache_limit_loop_absolute (-1) ltac:(vm_compute; discriminate)
              (Z.to_nat v) v ltac:(lia)) as (k & Hb & Hrun & _).
  eexists. apply Hrun. lia.
Qed.

(** C10: the halving loop of the storage page cache finishes for every
    starting value and either flag when the memory limit is not negative
    ([halvings_bound v] iterations are enough, and an iteration that is
    taken replaces a positive value by a smaller non-negative one); for a
    negative limit (any limit of [-2] or below) and the starting value [0]
    the loop asks for another iteration whatever the bound, so the loop is
    not total without the precondition. *)
Theorem storage_cache_halving_terminates
    (mem_limit negative_limit v : Z) (is_percent : bool) :
  0 <= mem_limit ->
  negative_limit <= -2 ->
  (exists r, forall fuel, (halvings_bound v <= fuel)%nat ->
     storage_cache_limit_loop fuel is_percent mem_limit v = Some r) /\
  (mem_limit ÷ 2 < v -> 0 <= v ÷ 2 < v) /\
  (forall fuel, storage_cache_limit_loop fuel false negative_limit 0 = None).
Proof.
  intros HL Hneg. destruct (quot2_nonneg _ HL) as [Hhalf _].
  split; [|split].
  - destruct is_percent.
    + exists v. intros fuel _. apply storage_cache_limit_loop_percent.
    + destruct (storage_cache_limit_loop_absolute mem_limit Hhalf
                  (Z.to_nat v) v ltac:(lia)) as (k & Hb & Hrun & _).
      eexists. intros fuel Hf. apply Hrun. lia.
  - intros Hv. apply quot2_lt. lia.
  - intros fuel. now apply storage_cache_limit_loop_zero_spins.
Qed.

Lemma storage_cache_halving_terminates_witness :
  (exists r, forall fuel, (halvings_bound 2500 <= fuel)%nat ->
     storage_cache_limit_loop fuel false 1000 2500 = Some r) /\
  (1000 ÷ 2 < 2500 -> 0 <= 2500 ÷ 2 < 2500) /\
  (forall fuel, storage_cache_limit_loop fuel false (-2) 0 = None).
Proof.
  apply (storage_cache_halving_terminates 1000 (-2) 2500 false); lia.
Defined.

(** C2 (as amended): when the memory limit [L] is not negative and the
    spec resolves to an absolute value [v], the capacity the storage page
    cache is created with is [v / 2^k] for the least [k] with
    [v / 2^k <= L / 2] (truncating division), for any fuel from [k] on;
    it is at most half of [L]; when the spec is a percentage the capacity
    is the resolved value itself. *)
Theorem storage_page_cache_capacity_halved
    (config : Config) (w : World) (s : ExecEnv) :
  0 <= MemInfo_mem_limit w ->
  IsPowerOf2 (min_buffer_size config) = true ->
  let v := (storage_spec config w).1 in
  let L := MemInfo_mem_limit w in
  let created fuel :=
    page_cache_capacities (trace (_init_mem_env fuel config w s).2) in
  if (storage_spec config w).2 then
    forall fuel, created fuel = page_cache_capacities (trace s) ++ [v]
  else
    exists k : nat,
      (forall fuel, (k <= fuel)%nat ->
         created fuel = page_cache_capacities (trace s) ++ [v ÷ 2 ^ Z.of_nat k]) /\
      (k <= halvings_bound v)%nat /\
      v ÷ 2 ^ Z.of_nat k <= L ÷ 2 /\
      2 * (v ÷ 2 ^ Z.of_nat k) <= L /\
      (forall j, (j < k)%nat -> L ÷ 2 < v ÷ 2 ^ Z.of_nat j).
Proof.
  intros HL Hpow v L created. subst v L created.
  destruct (quot2_nonneg _ HL) as [Hhalf Hdouble].
  destruct (storage_spec config w) as [v p] eqn:Hspec.
  destruct p; simpl.
  - intros fuel. apply _init_mem_env_page_cache; [exact Hpow|].
    rewrite Hspec. apply storage_cache_limit_loop_percent.
  - destruct (storage_cache_limit_loop_absolute (MemInfo_mem_limit w) Hhalf
                (Z.to_nat v) v ltac:(lia)) as (k & Hb & Hrun & Hle & Hmin).
    exists k. repeat split; [|exact Hb|exact Hle|lia|exact Hmin].
    intros fuel Hf. apply _init_mem_env_page_cache; [exact Hpow|].
    rewrite Hspec. now apply Hrun.
Qed.

Lemma storage_page_cache_capacity_halved_witness :
  exists k : nat,
    (forall fuel, (k <= fuel)%nat ->
       page_cache_capacities
         (trace (_init_mem_env fuel (sample_config_with 1024 "700" 1024 "20%")
                   sample_world fresh_env).2)
       = [] ++ [700 ÷ 2 ^ Z.of_nat k]) /\
    (k <= halvings_bound 700)%nat /\
    700 ÷ 2 ^ Z.of_nat k <= 1000 ÷ 2 /\
    2 * (700 ÷ 2 ^ Z.of_nat k) <= 1000 /\
    (forall j, (j < k)%nat -> 1000 ÷ 2 < 700 ÷ 2 ^ Z.of_nat j).
Proof.
  apply (storage_page_cache_capacity_halved
           (sample_config_with 1024 "700" 1024 "20%") sample_world fresh_env);
    [vm_compute; discriminate | reflexivity].
Defined.

(** C2 (as stated, for every memory limit) fails at the memory limit [-2]
    with the absolute value [0]: no number of halvings brings [0] down to
    [-2 / 2 = -1], the loop never finishes and no page cache is created. *)
Lemma storage_page_cache_negative_limit_counterexample :
  let config := sample_config_with 1024 "0" 1024 "20%" in
  let w := sample_world_with (-2) OK OK OK OK OK in
  storage_spec config w = (0, false) /\
  (forall k : nat, ~ 0 ÷ 2 ^ Z.of_nat k <= MemInfo_mem_limit w ÷ 2) /\
  (forall fuel,
     (_init_mem_env fuel config w fresh_env).1 = Diverged /\
     page_cache_capacities (trace (_init_mem_env fuel config w fresh_env).2) = []).
Proof.
  intros config w. split; [reflexivity|]. split.
  - intros k. rewrite Z.quot_0_l by (apply Z.pow_nonzero; lia).
    change (MemInfo_mem_limit w ÷ 2) with (-1). lia.
  - intros fuel. apply (_init_mem_env_spins config w fuel fresh_env).
    + reflexivity.
    + apply (storage_cache_limit_loop_zero_spins fuel (-2)). lia.
Qed.

(** C3 (as amended): with the absolute value 2500 and the memory limit
    1000 the loop goes 2500, 1250, 625, 312 and stops at 312, the first
    value that is not above 500; the storage page cache is created with
    capacity 312. *)
Theorem halving_2500_of_1000_stops_at_312 (fuel : nat) :
  let config := sample_config_with 1024 "2500" 1024 "20%" in
  storage_spec config sample_world = (2500, false) /\
  storage_cache_limit_loop (3 + fuel) false 1000 2500 = Some 312 /\
  page_cache_capacities
    (trace (_init_mem_env (3 + fuel) config sample_world fresh_env).2) = [312].
Proof.
  intros config.
  assert (Hloop : storage_cache_limit_loop (3 + fuel) false 1000 2500 = Some 312).
  { simpl Nat.add.
    do 3 (rewrite storage_cache_limit_loop_step by (vm_compute; reflexivity)).
    apply storage_cache_limit_loop_fits. vm_compute. discriminate. }
  split; [reflexivity|]. split; [exact Hloop|].
  apply (_init_mem_env_page_cache config sample_world (3 + fuel) fresh_env 312);
    [reflexivity|exact Hloop].
Qed.

(** C3 (as stated) fails: 625 is still above 500, so the loop does not
    stop there, and the cache is not created with capacity 625. *)
Lemma halving_2500_of_1000_not_625 :
  let config := sample_config_with 1024 "2500" 1024 "20%" in
  (625 >? 1000 ÷ 2) = true /\
  (forall fuel, storage_cache_limit_loop fuel false 1000 2500 <> Some 625) /\
  page_cache_capacities
    (trace (_init_mem_env 64 config sample_world fresh_env).2) <> [625].
Proof.
  intros config. split; [reflexivity|]. split.
  - intros fuel.
    do 3 (destruct fuel as [|fuel]; [discriminate|]).
    do 3 (rewrite storage_cache_limit_loop_step by (vm_compute; reflexivity)).
    rewrite storage_cache_limit_loop_fits by (vm_compute; discriminate).
    discriminate.
  - vm_compute. discriminate.
Qed.

(** C9: once step 5 of the memory environment is reached, a granularity
    that is a power of two makes [_init_mem_env] succeed and initialise
    the chunk allocator with the resolved limit rounded down to a multiple
    of the granularity (the greatest multiple not above the limit); a
    granularity that is not a power of two makes it return
    [InternalError "Config min_chunk_reserved_bytes must be a power-of-two: g"]
    without initialising the chunk allocator.  130 with granularity 64
    gives 128. *)
Theorem chunk_allocator_reservation_rounded
    (fuel : nat) (config : Config) (w : World) (s : ExecEnv) :
  0 <= MemInfo_mem_limit w ->
  enough_fuel fuel config w ->
  IsPowerOf2 (min_buffer_size config) = true ->
  ok (tmp_file_mgr_init w) = true ->
  ok (block_spill_mgr_init w) = true ->
  let g := min_chunk_reserved_bytes config in
  let limit := (chunk_spec config w).1 in
  let run := _init_mem_env fuel config w s in
  (IsPowerOf2 g = true ->
     run.1 = Returned OK /\
     chunk_reservations (trace run.2)
     = chunk_reservations (trace s) ++ [RoundDown limit g] /\
     (g | RoundDown limit g) /\
     RoundDown limit g <= limit < RoundDown limit g + g) /\
  (IsPowerOf2 g = false ->
     run.1 = Returned (InternalError
               ("Config min_chunk_reserved_bytes must be a power-of-two: "
                +:+ pretty g)) /\
     chunk_reservations (trace run.2) = chunk_reservations (trace s)) /\
  RoundDown 130 64 = 128.
Proof.
  intros HL Hfuel Hbuf Htmp Hspill g limit run. subst g limit run.
  destruct (storage_cache_limit_loop_finishes config w fuel HL Hfuel) as [r Hr].
  destruct (_init_mem_env_chunk_allocator config w fuel s r Hbuf Hr Htmp Hspill)
    as [Hres Htr].
  split; [|split; [|reflexivity]]; intros Hg; rewrite Hg in Hres, Htr.
  - split; [exact Hres|]. split; [exact Htr|].
    apply RoundDown_spec. now apply IsPowerOf2_pos.
  - split; [exact Hres|]. now rewrite app_nil_r in Htr.
Qed.

Lemma chunk_allocator_reservation_rounded_witness :
  let config := sample_config_with 1024 "20%" 64 "130" in
  let run := _init_mem_env 64 config sample_world fresh_env in
  (IsPowerOf2 64 = true ->
     run.1 = Returned OK /\
     chunk_reservations (trace run.2) = [] ++ [RoundDown 130 64] /\
     (64 | RoundDown 130 64) /\
     RoundDown 130 64 <= 130 < RoundDown 130 64 + 64) /\
  (IsPowerOf2 64 = false ->
     run.1 = Returned (InternalError
               ("Config min_chunk_reserved_bytes must be a power-of-two: "
                +:+ pretty 64)) /\
     chunk_reservations (trace run.2) = []) /\
  RoundDown 130 64 = 128.
Proof.
  apply (chunk_allocator_reservation_rounded 64
           (sample_config_with 1024 "20%" 64 "130") sample_world fresh_env);
    [vm_compute; discriminate | unfold enough_fuel; vm_compute; lia
    | reflexivity | reflexivity | reflexivity].
Defined.

(** The two examples of the specification, run through [_init_mem_env]. *)
Example chunk_reservation_130_64 :
  chunk_reservations
    (trace (_init_mem_env 64 (sample_config_with 1024 "20%" 64 "130")
              sample_world fresh_env).2) = [128].
Proof. vm_compute. reflexivity. Qed.

Example bad_granularity_96 :
  (_init_mem_env 64 (sample_config_with 1024 "20%" 96 "130")
     sample_world fresh_env).1
  = Returned (InternalError
                "Config min_chunk_reserved_bytes must be a power-of-two: 96").
Proof. vm_compute. reflexivity. Qed.

Example halving_700_of_1000 :
  page_cache_capacities
    (trace (_init_mem_env 64 (sample_config_with 1024 "700" 1024 "20%")
              sample_world fresh_env).2) = [350].
Proof. vm_compute. reflexivity. Qed.

(** ** Tear-down *)

Section Destroy.

Lemma _destroy_unfold (s : ExecEnv) :
  _destroy s =
  if negb (_is_init s) then s
  else set_is_init false (delete_all destroy_order (_deregister_metrics s)).
Proof.
  cbv beta iota zeta delta [_destroy delete_all fold_left destroy_order].
  reflexivity.
Qed.

Lemma _destroy_not_initialized (s : ExecEnv) :
  _is_init s = false -> _destroy s = s.
Proof. intros H. rewrite _destroy_unfold, H. reflexivity. Qed.

Lemma _destroy_clears_flag (s : ExecEnv) : _is_init (_destroy s) = false.
Proof.
  rewrite _destroy_unfold. destruct (_is_init s) eqn:H; simpl; [reflexivity|exact H].
Qed.

Lemma Member_eqb_sym (a b : Member) : Member_eqb a b = Member_eqb b a.
Proof. apply Pos.eqb_sym. Qed.

Lemma SAFE_DELETE_live (x m : Member) (s : ExecEnv) :
  live (SAFE_DELETE x s) m = if Member_eqb m x then false else live s m.
Proof.
  unfold SAFE_DELETE. destruct (live s x) eqn:Hx; simpl; [reflexivity|].
  destruct (Member_eqb m x) eqn:Hm; [|reflexivity].
  apply Pos.eqb_eq in Hm. rewrite <- Hx.
  destruct m, x; solve [reflexivity | discriminate Hm].
Qed.

(** After the deletions a member is null if it is in the list and is what
    it was otherwise. *)
Lemma delete_all_live (ms : list Member) :
  forall (s : ExecEnv) (m : Member),
    live (delete_all ms s) m
    = if existsb (Member_eqb m) ms then false else live s m.
Proof.
  induction ms as [|x rest IH]; intros s m; simpl; [reflexivity|].
  fold (delete_all rest (SAFE_DELETE x s)).
  rewrite IH, SAFE_DELETE_live.
  destruct (Member_eqb m x); simpl; [|reflexivity].
  now destruct (existsb (Member_eqb m) rest).
Qed.

(** Deleting distinct members that are all live leaves one [DeleteObj]
    event per member, in the order of the list. *)
Lemma delete_all_trace (ms : list Member) :
  forall s : ExecEnv,
    distinct ms = true ->
    forallb (live s) ms = true ->
    trace (delete_all ms s) = trace s ++ map DeleteObj ms.
Proof.
  induction ms as [|x rest IH]; intros s Hd Hl; simpl.
  - now rewrite app_nil_r.
  - simpl in Hd, Hl.
    apply andb_true_iff in Hd as [Hx Hd]. apply andb_true_iff in Hl as [Hlx Hl].
    apply negb_true_iff in Hx.
    fold (delete_all rest (SAFE_DELETE x s)).
    rewrite IH; [| exact Hd |].
    + unfold SAFE_DELETE. rewrite Hlx. simpl. now rewrite <- app_assoc.
    + apply forallb_forall. intros y Hy.
      rewrite SAFE_DELETE_live.
      destruct (Member_eqb y x) eqn:Hyx.
      * rewrite Member_eqb_sym in Hyx.
        assert (existsb (Member_eqb x) rest = true); [|congruence].
        apply existsb_exists. eauto.
      * rewrite forallb_forall in Hl. now apply Hl.
Qed.

(** The deletions touch nothing but the pointers and the trace. *)
Lemma delete_all_frame (ms : list Member) :
  forall s : ExecEnv,
    _is_init (delete_all ms s) = _is_init s /\
    _store_paths (delete_all ms s) = _store_paths s /\
    _store_path_map (delete_all ms s) = _store_path_map s /\
    _send_batch_thread_pool (delete_all ms s) = _send_batch_thread_pool s /\
    _download_cache_thread_pool (delete_all ms s) = _download_cache_thread_pool s /\
    _serial_download_cache_thread_token (delete_all ms s)
    = _serial_download_cache_thread_token s /\
    _download_cache_buf_map (delete_all ms s) = _download_cache_buf_map s /\
    tokens_issued (delete_all ms s) = tokens_issued s.
Proof.
  induction ms as [|x rest IH]; intros s; simpl; [repeat split|].
  fold (delete_all rest (SAFE_DELETE x s)).
  destruct (IH (SAFE_DELETE x s)) as (-> & -> & -> & -> & -> & -> & -> & ->).
  unfold SAFE_DELETE. destruct (live s x); repeat split.
Qed.

Lemma distinct_destroy_order : distinct destroy_order = true.
Proof. vm_compute. reflexivity. Qed.

End Destroy.

(** ** Start-up *)

Section Init.

Variables (fuel : nat) (config : Config) (w : World)
  (store_paths : list StorePath).

(** Walk through the branches of [_init] in program order; [tac] closes
    each path once its end is reached. *)
Ltac walk_init tac :=
  exec;
  destruct (download_cache_buffer_size config <? 0) eqn:Hbuf_size;
    [exec; tac|];
  exec;
  destruct (ok (pipeline_task_scheduler_start w)) eqn:Hpipeline;
    [|exec; rewrite Hpipeline; exec; tac];
  destruct (ok (load_path_mgr_init w)) eqn:Hload_path; [|exec; tac];
  destruct (tcmalloc_hook_compiled w && enable_tcmalloc_hook config);
  (destruct (IsPowerOf2 (min_buffer_size config)) eqn:Hbuffer;
   [destruct (storage_cache_limit_loop fuel
                (parse_mem_spec w (storage_page_cache_limit config)
                   (MemInfo_mem_limit w) (MemInfo_physical_mem w) false).2
                (MemInfo_mem_limit w)
                (parse_mem_spec w (storage_page_cache_limit config)
                   (MemInfo_mem_limit w) (MemInfo_physical_mem w) false).1)
      eqn:Hloop; [|exec; tac];
    destruct (ok (tmp_file_mgr_init w)) eqn:Htmp;
    [destruct (ok (block_spill_mgr_init w)) eqn:Hspill;
     [destruct (IsPowerOf2 (min_chunk_reserved_bytes config)) eqn:Hchunk|]|]
   |]);
  (destruct (ok (load_channel_mgr_init w (MemInfo_mem_limit w)))
     eqn:Hload_channel);
  exec; tac.

Lemma ok_true (st : Status) : ok st = true -> st = OK.
Proof. destruct st; [reflexivity|discriminate|discriminate]. Qed.

(** The map is written once, at the start, on every path. *)
Lemma _init_store_path_map (s : ExecEnv) :
  _is_init s = false ->
  _store_path_map (_init fuel config w store_paths s).2
  = store_path_map_loop store_paths 0 (_store_path_map s).
Proof.
  intros Hinit. destruct s; simpl in Hinit; subst.
  walk_init ltac:(idtac; reflexivity).
Qed.

(** A negative size of the download-cache buffer: the allocation throws
    right after the serial token has been taken, before anything else is
    constructed. *)
Lemma _init_negative_buffer_size (s : ExecEnv) :
  _is_init s = false ->
  download_cache_buffer_size config < 0 ->
  (_init fuel config w store_paths s).1 = Thrown /\
  _is_init (_init fuel config w store_paths s).2 = false /\
  last (trace (_init fuel config w store_paths s).2)
  = Some (Static "ThreadPool::new_token" [AStr "SERIAL"]) /\
  _download_cache_buf_map (_init fuel config w store_paths s).2
  = _download_cache_buf_map s /\
  live (_init fuel config w store_paths s).2 _pipeline_task_scheduler
  = live s _pipeline_task_scheduler.
Proof.
  intros Hinit Hb. apply Z.ltb_lt in Hb.
  destruct s; simpl in Hinit; subst.
  exec. rewrite Hb. exec.
  repeat split; try reflexivity. apply last_snoc.
Qed.

(** A failed start of the pipeline task scheduler is returned. *)
Lemma _init_pipeline_failure (s : ExecEnv) :
  _is_init s = false ->
  0 <= download_cache_buffer_size config ->
  ok (pipeline_task_scheduler_start w) = false ->
  (_init fuel config w store_paths s).1
  = Returned (pipeline_task_scheduler_start w).
Proof.
  intros Hinit Hb Hp. apply Z.ltb_ge in Hb.
  destruct s; simpl in Hinit; subst.
  exec. rewrite Hb. exec. rewrite Hp. exec. rewrite Hp. reflexivity.
Qed.

(** A failed initialisation of the load-path manager ends the process on
    the spot: the call of its [init] is the last thing that happens. *)
Lemma _init_load_path_failure (s : ExecEnv) :
  _is_init s = false ->
  0 <= download_cache_buffer_size config ->
  ok (pipeline_task_scheduler_start w) = true ->
  ok (load_path_mgr_init w) = false ->
  (_init fuel config w store_paths s).1 = Exited (-1) /\
  last (trace (_init fuel config w store_paths s).2)
  = Some (Call _load_path_mgr "init" []) /\
  _is_init (_init fuel config w store_paths s).2 = false.
Proof.
  intros Hinit Hb Hp Hl. apply Z.ltb_ge in Hb.
  destruct s; simpl in Hinit; subst.
  exec. rewrite Hb. exec. rewrite Hp. exec. rewrite Hl. exec.
  split; [reflexivity|]. split; [apply last_snoc|reflexivity].
Qed.

(** No other path ends the process. *)
Lemma _init_exit_only_load_path (s : ExecEnv) (c : Z) :
  (_init fuel config w store_paths s).1 = Exited c ->
  _is_init s = false /\
  (download_cache_buffer_size config <? 0) = false /\
  ok (pipeline_task_scheduler_start w) = true /\
  ok (load_path_mgr_init w) = false /\ c = -1.
Proof.
  destruct s as [i ? ? ? ? ? ? ? ? ?]. destruct i; [exec; discriminate|].
  revert c.
  walk_init ltac:(idtac; intros c H;
                  first [discriminate H | injection H as <-; auto]).
Qed.

(** Past the load-path manager, and with a loop that finishes, what
    [_init] returns is what the load-channel manager returns: the status
    of [_init_mem_env] has no part in it. *)
Lemma _init_returns_load_channel_status (s : ExecEnv) :
  _is_init s = false ->
  0 <= download_cache_buffer_size config ->
  ok (pipeline_task_scheduler_start w) = true ->
  ok (load_path_mgr_init w) = true ->
  0 <= MemInfo_mem_limit w ->
  enough_fuel fuel config w ->
  (_init fuel config w store_paths s).1
  = Returned (load_channel_mgr_init w (MemInfo_mem_limit w)).
Proof.
  intros Hinit Hb Hp Hl HL Hfuel. apply Z.ltb_ge in Hb.
  destruct (storage_cache_limit_loop_finishes config w fuel HL Hfuel) as [r Hr].
  unfold storage_spec in Hr.
  destruct s; simpl in Hinit; subst.
  walk_init ltac:(idtac;
    first [ congruence
          | rewrite (ok_true _ Hload_channel); reflexivity
          | reflexivity ]).
Qed.

(** When [_init] reports success the flag is set and every pointer member
    is set. *)
Lemma _init_success_state (s : ExecEnv) :
  _is_init s = false ->
  (_init fuel config w store_paths s).1 = Returned OK ->
  _is_init (_init fuel config w store_paths s).2 = true /\
  forall m, live (_init fuel config w store_paths s).2 m = true.
Proof.
  intros Hinit. destruct s; simpl in Hinit; subst.
  walk_init ltac:(idtac; intros H;
    first [ discriminate H
          | injection H as H; rewrite H in *; discriminate
          | split; [reflexivity | intros m; destruct m; reflexivity] ]).
Qed.

End Init.

(** ** Claims on the lifecycle *)

(** C6: on an environment whose initialised flag is set, [init] returns
    OK and hands back the very same environment: no field and no entry of
    the trace is added or changed. *)
Theorem init_when_initialized_is_noop
    (fuel : nat) (config : Config) (w : World) (env : ExecEnv)
    (store_paths : list StorePath) :
  _is_init env = true ->
  init fuel config w env store_paths = (Returned OK, env).
Proof.
  intros H. unfold init. destruct env; simpl in H; subst.
  exec. reflexivity.
Qed.

Lemma init_when_initialized_is_noop_witness :
  let env := (init 64 sample_config sample_world fresh_env sample_paths).2 in
  init 64 sample_config sample_world env [mkStorePath "/c" 1]
  = (Returned OK, env).
Proof.
  intros env. apply init_when_initialized_is_noop. vm_compute. reflexivity.
Defined.

(** C7: on an environment whose initialised flag is clear, [destroy]
    hands back the very same environment (so also on the environment as
    constructed, before any [init]); and on any environment a second
    [destroy] changes nothing after the first. *)
Theorem destroy_when_not_initialized_is_noop (env other : ExecEnv) :
  _is_init env = false ->
  destroy env = env /\ destroy (destroy other) = destroy other.
Proof.
  intros H. unfold destroy. split.
  - now apply _destroy_not_initialized.
  - apply _destroy_not_initialized, _destroy_clears_flag.
Qed.

Lemma destroy_when_not_initialized_is_noop_witness :
  let other := (init 64 sample_config sample_world fresh_env sample_paths).2 in
  destroy fresh_env = fresh_env /\ destroy (destroy other) = destroy other.
Proof.
  intros other. apply destroy_when_not_initialized_is_noop. reflexivity.
Defined.

(** C8: on an environment that is not yet initialised (and with a
    download-cache buffer size that is not negative, so that the start-up
    gets as far as the managers), a non-OK status of the load-path
    manager's [init] ends the process with [exit(-1)] on the spot: the
    call of that [init] is the last thing [init] does, and the flag stays
    clear.  The other statuses [_init] checks, the start of the pipeline
    task scheduler and the [init] of the load-channel manager, are
    returned to the caller; and nothing but the load-path failure ends
    the process. *)
Theorem load_path_failure_exits_process
    (fuel : nat) (config : Config) (w : World) (env : ExecEnv)
    (store_paths : list StorePath) :
  _is_init env = false ->
  let run := init fuel config w env store_paths in
  (0 <= download_cache_buffer_size config ->
   ok (pipeline_task_scheduler_start w) = true ->
   ok (load_path_mgr_init w) = false ->
   run.1 = Exited (-1) /\
   last (trace run.2) = Some (Call _load_path_mgr "init" []) /\
   _is_init run.2 = false) /\
  (0 <= download_cache_buffer_size config ->
   ok (pipeline_task_scheduler_start w) = false ->
   run.1 = Returned (pipeline_task_scheduler_start w)) /\
  (0 <= download_cache_buffer_size config ->
   ok (pipeline_task_scheduler_start w) = true ->
   ok (load_path_mgr_init w) = true ->
   0 <= MemInfo_mem_limit w ->
   enough_fuel fuel config w ->
   ok (load_channel_mgr_init w (MemInfo_mem_limit w)) = false ->
   run.1 = Returned (load_channel_mgr_init w (MemInfo_mem_limit w))) /\
  (forall c, run.1 = Exited c ->
     0 <= download_cache_buffer_size config /\
     ok (pipeline_task_scheduler_start w) = true /\
     ok (load_path_mgr_init w) = false /\ c = -1).
Proof.
  intros Hinit run. subst run. unfold init.
  split; [|split; [|split]].
  - intros Hb Hp Hl. now apply _init_load_path_failure.
  - intros Hb Hp. now apply _init_pipeline_failure.
  - intros Hb Hp Hl HL Hfuel _. now apply _init_returns_load_channel_status.
  - intros c Hc. apply _init_exit_only_load_path in Hc as (_ & Hb & Hrest).
    apply Z.ltb_ge in Hb. auto.
Qed.

Lemma load_path_failure_exits_process_witness :
  let w := sample_world_with 1000 OK (Failure 2 "no load dir") OK OK OK in
  let run := init 64 sample_config w fresh_env sample_paths in
  run.1 = Exited (-1) /\
  last (trace run.2) = Some (Call _load_path_mgr "init" []) /\
  _is_init run.2 = false.
Proof.
  intros w.
  apply (load_path_failure_exits_process 64 sample_config w fresh_env
           sample_paths eq_refl);
    [vm_compute; discriminate | reflexivity | reflexivity].
Defined.

(** C1, evaluated where it fails: with [min_buffer_size = 96], and with a
    temp-file manager whose [init] fails, [_init_mem_env] returns the
    error, but [init] drops that status, goes on with the load-channel
    manager, the heartbeat flags and the metric hooks, sets the
    initialised flag and returns OK. *)
Theorem init_discards_mem_env_failure :
  let bad_config := sample_config_with 96 "20%" 1024 "20%" in
  let bad_world := sample_world_with 1000 OK OK (Failure 1 "tmp dir") OK OK in
  let run1 := init 64 bad_config sample_world fresh_env sample_paths in
  let run2 := init 64 sample_config bad_world fresh_env sample_paths in
  (forall s, (_init_mem_env 64 bad_config sample_world s).1
             = Returned (InternalError
                 "Config min_buffer_size must be a power-of-two: 96")) /\
  run1.1 = Returned OK /\ _is_init run1.2 = true /\
  page_cache_capacities (trace run1.2) = [] /\
  live run1.2 _heartbeat_flags = true /\
  (forall s, (_init_mem_env 64 sample_config bad_world s).1
             = Returned (Failure 1 "tmp dir")) /\
  run2.1 = Returned OK /\ _is_init run2.2 = true /\
  chunk_reservations (trace run2.2) = [].
Proof.
  intros bad_config bad_world run1 run2.
  repeat split; try (intros s; destruct s); vm_compute; reflexivity.
Qed.

(** The same in general: past the load-path manager the status of
    [_init_mem_env] never reaches the caller of [init]. *)
Lemma init_result_independent_of_mem_env
    (fuel : nat) (config : Config) (w : World) (env : ExecEnv)
    (store_paths : list StorePath) :
  _is_init env = false ->
  0 <= download_cache_buffer_size config ->
  ok (pipeline_task_scheduler_start w) = true ->
  ok (load_path_mgr_init w) = true ->
  0 <= MemInfo_mem_limit w ->
  enough_fuel fuel config w ->
  ok (load_channel_mgr_init w (MemInfo_mem_limit w)) = true ->
  (init fuel config w env store_paths).1 = Returned OK.
Proof.
  intros Hinit Hb Hp Hl HL Hfuel Hc. unfold init.
  rewrite _init_returns_load_channel_status by assumption.
  now rewrite (ok_true _ Hc).
Qed.

(** C4 (as amended): after [init] on an environment that is not yet
    initialised, every path of the list is mapped to the position of its
    last occurrence in the list (a later duplicate overwrites the index of
    an earlier one), and a key that is not in the list keeps what the map
    held before; in a list without duplicates every path is mapped to its
    own position, [0 .. n-1] in list order. *)
Theorem store_path_map_last_occurrence
    (fuel : nat) (config : Config) (w : World) (env : ExecEnv)
    (store_paths : list StorePath) :
  _is_init env = false ->
  let m := _store_path_map (init fuel config w env store_paths).2 in
  (forall (p : string) (i : nat),
     last_occurrence store_paths p i -> m !! p = Some i) /\
  (forall p : string,
     absent store_paths p -> m !! p = _store_path_map env !! p) /\
  (NoDup (path <$> store_paths) ->
   forall (i : nat) (sp : StorePath),
     store_paths !! i = Some sp -> m !! path sp = Some i).
Proof.
  intros Hinit m. subst m. unfold init.
  rewrite _init_store_path_map by exact Hinit.
  assert (Hlast : forall (p : string) (i : nat),
            last_occurrence store_paths p i ->
            store_path_map_loop store_paths 0 (_store_path_map env) !! p
            = Some i).
  { intros p i Hl. apply store_path_map_loop_lookup. left.
    exists i. split; [reflexivity|exact Hl]. }
  split; [exact Hlast|]. split.
  - intros p Habs. apply option_eq. intros j.
    rewrite store_path_map_loop_lookup. split.
    + intros [(n & _ & Hat & _)|[_ Hj]]; [|exact Hj].
      now destruct (Habs n).
    + intros Hj. right. split; [exact Habs|exact Hj].
  - intros Hnd i sp Hi. apply Hlast, NoDup_last_occurrence; [exact Hnd|].
    now rewrite list_lookup_fmap, Hi.
Qed.

Lemma store_path_map_last_occurrence_witness :
  let m :=
    _store_path_map
      (init 64 sample_config sample_world fresh_env sample_paths).2 in
  (forall (p : string) (i : nat),
     last_occurrence sample_paths p i -> m !! p = Some i) /\
  (forall p : string,
     absent sample_paths p -> m !! p = _store_path_map fresh_env !! p) /\
  (NoDup (path <$> sample_paths) ->
   forall (i : nat) (sp : StorePath),
     sample_paths !! i = Some sp -> m !! path sp = Some i).
Proof.
  apply (store_path_map_last_occurrence 64 sample_config sample_world
           fresh_env sample_paths); reflexivity.
Defined.

(** C4 (as stated) fails on the list ["/a"; "/b"; "/a"]: the first
    occurrence of "/a" is at index 0, the map holds 2. *)
Lemma duplicate_store_path_keeps_last_index :
  let m :=
    _store_path_map
      (init 64 sample_config sample_world fresh_env sample_paths).2 in
  path <$> sample_paths = ["/a"; "/b"; "/a"] /\
  first_occurrence sample_paths "/a" 0 /\
  m !! "/a" = Some 2%nat /\
  m !! "/a" <> Some 0%nat.
Proof.
  intros m. split; [reflexivity|]. split; [|split].
  - split; [reflexivity|]. intros k Hk. lia.
  - vm_compute. reflexivity.
  - vm_compute. discriminate.
Qed.

Lemma _deregister_metrics_trace (s : ExecEnv) :
  trace (_deregister_metrics s) = trace s ++ deregistered_hooks.
Proof.
  unfold _deregister_metrics, deregistered_hooks, emit. simpl.
  now rewrite <- !app_assoc.
Qed.

(** C5 (as amended): on an environment that a successful [init] has just
    set up, [destroy] first unbinds the five metric hooks and then deletes
    exactly the members of [destroy_order], in that order: the two RPC
    client caches, the legacy load-stream manager and the load-channel
    manager, broker manager, parser utility, temp-file manager, load-path
    manager, master info, fragment manager, pipeline task scheduler,
    cgroup manager, thread-resource manager, the three service client
    caches, result-buffer manager, result-queue manager, stream-load
    executor, routine-load executor, external-scan-context manager,
    heartbeat flags, scanner scheduler.  Every other member (among them
    the new load-stream manager) stays set, the flag is cleared, and the
    paths, the map, the pools, the token and the buffer map are as before. *)
Theorem destroy_releases_in_order
    (fuel : nat) (config : Config) (w : World) (env0 env : ExecEnv)
    (store_paths : list StorePath) :
  _is_init env0 = false ->
  init fuel config w env0 store_paths = (Returned OK, env) ->
  trace (destroy env)
  = trace env ++ deregistered_hooks ++ map DeleteObj destroy_order /\
  (forall m, live (destroy env) m = negb (released m)) /\
  _is_init (destroy env) = false /\
  _store_paths (destroy env) = _store_paths env /\
  _store_path_map (destroy env) = _store_path_map env /\
  _send_batch_thread_pool (destroy env) = _send_batch_thread_pool env /\
  _download_cache_thread_pool (destroy env) = _download_cache_thread_pool env /\
  _serial_download_cache_thread_token (destroy env)
  = _serial_download_cache_thread_token env /\
  _download_cache_buf_map (destroy env) = _download_cache_buf_map env.
Proof.
  intros Hinit0 Hrun. unfold init, destroy in *.
  destruct (_init_success_state fuel config w store_paths env0 Hinit0)
    as [Hflag Hlive]; [now rewrite Hrun|].
  rewrite Hrun in Hflag, Hlive. simpl in Hflag, Hlive.
  rewrite _destroy_unfold, Hflag. simpl negb. cbv iota.
  assert (Htrace : trace (delete_all destroy_order (_deregister_metrics env))
                   = trace env ++ deregistered_hooks ++ map DeleteObj destroy_order).
  { rewrite delete_all_trace, _deregister_metrics_trace.
    - now rewrite <- app_assoc.
    - exact distinct_destroy_order.
    - apply forallb_forall. intros m _. apply Hlive. }
  assert (Hlive' : forall m,
            live (delete_all destroy_order (_deregister_metrics env)) m
            = negb (released m)).
  { intros m. rewrite delete_all_live. fold (released m).
    destruct (released m); [reflexivity|]. apply Hlive. }
  destruct (delete_all_frame destroy_order (_deregister_metrics env))
    as (_ & Hpaths & Hmap & Hsend & Hdown & Htoken & Hbuf & _).
  generalize dependent (delete_all destroy_order (_deregister_metrics env)).
  intros env' Htrace Hlive' Hpaths Hmap Hsend Hdown Htoken Hbuf.
  split; [|split].
  - exact Htrace.
  - exact Hlive'.
  - repeat split; assumption.
Qed.

Lemma destroy_releases_in_order_witness :
  let env := (init 64 sample_config sample_world fresh_env sample_paths).2 in
  trace (destroy env)
  = trace env ++ deregistered_hooks ++ map DeleteObj destroy_order /\
  (forall m, live (destroy env) m = negb (released m)) /\
  _is_init (destroy env) = false /\
  _store_paths (destroy env) = _store_paths env /\
  _store_path_map (destroy env) = _store_path_map env /\
  _send_batch_thread_pool (destroy env) = _send_batch_thread_pool env /\
  _download_cache_thread_pool (destroy env) = _download_cache_thread_pool env /\
  _serial_download_cache_thread_token (destroy env)
  = _serial_download_cache_thread_token env /\
  _download_cache_buf_map (destroy env) = _download_cache_buf_map env.
Proof.
  intros env.
  apply (destroy_releases_in_order 64 sample_config sample_world fresh_env
           env sample_paths); [reflexivity | vm_compute; reflexivity].
Defined.

(** C5 (as stated) fails: the members deleted are not the listed ones.
    The load-channel manager, which the list does not name, is deleted,
    and the new load-stream manager, one of "both load-stream managers",
    is not. *)
Lemma destroy_order_is_not_the_listed_order :
  let env := (init 64 sample_config sample_world fresh_env sample_paths).2 in
  _is_init env = true /\
  deletions (trace (destroy env)) = destroy_order /\
  deletions (trace (destroy env)) <> listed_release_order /\
  In _load_channel_mgr (deletions (trace (destroy env))) /\
  ~ In _load_channel_mgr listed_release_order /\
  In _new_load_stream_mgr listed_release_order /\
  ~ In _new_load_stream_mgr (deletions (trace (destroy env))) /\
  live env _new_load_stream_mgr = true /\
  live (destroy env) _new_load_stream_mgr = true.
Proof.
  intros env.
  assert (Hdel : deletions (trace (destroy env)) = destroy_order)
    by (vm_compute; reflexivity).
  rewrite Hdel.
  repeat split; try (vm_compute; reflexivity).
  - discriminate.
  - simpl. tauto.
  - simpl. intuition discriminate.
  - simpl. tauto.
  - simpl. intuition discriminate.
Qed.

(** * Further properties *)

(** ** The memory environment, step by step *)

Section MemEnvSteps.

Variables (fuel : nat) (config : Config) (w : World).

Hypothesis limit_nonneg : 0 <= MemInfo_mem_limit w.
Hypothesis fuel_enough : enough_fuel fuel config w.

(** Everything [_init_mem_env] does once the buffer-size check has passed
    and the loop has left [r], read off the trace. *)
Lemma _init_mem_env_steps (s : ExecEnv) (r : Z) :
  IsPowerOf2 (min_buffer_size config) = true ->
  storage_cache_limit_loop fuel (storage_spec config w).2
    (MemInfo_mem_limit w) (storage_spec config w).1 = Some r ->
  let run := _init_mem_env fuel config w s in
  let fd := if getrlimit_ret w =? 0 then to_uint64 (rlim_cur w)
            else to_uint64 (min_file_descriptor_number config) in
  let reached := ok (tmp_file_mgr_init w) && ok (block_spill_mgr_init w) in
  run.1 = Returned
            (if ok (tmp_file_mgr_init w) then
               if ok (block_spill_mgr_init w) then
                 if IsPowerOf2 (min_chunk_reserved_bytes config) then OK
                 else InternalError
                        ("Config min_chunk_reserved_bytes must be a power-of-two: "
                         +:+ pretty (min_chunk_reserved_bytes config))
               else block_spill_mgr_init w
             else tmp_file_mgr_init w) /\
  segment_capacities (trace run.2) = segment_capacities (trace s) ++ [fd / 3 * 2] /\
  calls_on _tmp_file_mgr (trace run.2) = calls_on _tmp_file_mgr (trace s) ++ ["init"] /\
  calls_on _block_spill_mgr (trace run.2)
  = calls_on _block_spill_mgr (trace s)
    ++ (if ok (tmp_file_mgr_init w) then ["init"] else []) /\
  chunk_reservations (trace run.2)
  = chunk_reservations (trace s)
    ++ (if reached && IsPowerOf2 (min_chunk_reserved_bytes config)
        then [RoundDown (chunk_spec config w).1 (min_chunk_reserved_bytes config)]
        else []).
Proof.
  intros Hpow Hloop run fd reached. subst run fd reached.
  unfold chunk_spec, storage_spec in *.
  destruct s. exec. rewrite Hpow, Hloop.
  destruct (getrlimit_ret w =? 0);
  destruct (tcmalloc_hook_compiled w && enable_tcmalloc_hook config);
    destruct (ok (tmp_file_mgr_init w)) eqn:Htmp;
    try destruct (ok (block_spill_mgr_init w)) eqn:Hspill;
    try destruct (IsPowerOf2 (min_chunk_reserved_bytes config));
    exec;
    unfold segment_capacities, calls_on, chunk_reservations;
    rewrite ?omap_app; simpl; rewrite ?app_nil_r;
    try rewrite (ok_true _ Hspill); repeat split; reflexivity.
Qed.

(** A buffer size that is not a power of two: the result. *)
Lemma _init_mem_env_bad_buffer_result (s : ExecEnv) :
  IsPowerOf2 (min_buffer_size config) = false ->
  (_init_mem_env fuel config w s).1
  = Returned (InternalError
      ("Config min_buffer_size must be a power-of-two: "
       +:+ pretty (min_buffer_size config))).
Proof.
  intros Hbad. destruct s. exec. rewrite Hbad.
  destruct (tcmalloc_hook_compiled w && enable_tcmalloc_hook config);
    reflexivity.
Qed.

(** X5: a buffer size that is not a power of two stops [_init_mem_env]
    right after the memory tracker has been created: it returns
    [InternalError "Config min_buffer_size must be a power-of-two: n"] and
    has created no page cache, no segment loader and no chunk allocator
    and has initialised neither the temp-file nor the block-spill manager. *)
Theorem mem_env_bad_buffer_size_stops_early (s : ExecEnv) :
  IsPowerOf2 (min_buffer_size config) = false ->
  let run := _init_mem_env fuel config w s in
  run.1 = Returned (InternalError
            ("Config min_buffer_size must be a power-of-two: "
             +:+ pretty (min_buffer_size config))) /\
  page_cache_capacities (trace run.2) = page_cache_capacities (trace s) /\
  segment_capacities (trace run.2) = segment_capacities (trace s) /\
  chunk_reservations (trace run.2) = chunk_reservations (trace s) /\
  calls_on _tmp_file_mgr (trace run.2) = calls_on _tmp_file_mgr (trace s) /\
  calls_on _block_spill_mgr (trace run.2) = calls_on _block_spill_mgr (trace s) /\
  live run.2 _orphan_mem_tracker = true.
Proof.
  intros Hbad run. subst run. destruct s. exec. rewrite Hbad.
  destruct (tcmalloc_hook_compiled w && enable_tcmalloc_hook config);
    exec;
    unfold page_cache_capacities, segment_capacities, chunk_reservations,
      calls_on;
    rewrite ?omap_app; simpl; rewrite ?app_nil_r; repeat split; reflexivity.
Qed.

(** X1: the segment loader is created with two thirds of the descriptor
    limit, [fd / 3 * 2] on [uint64_t], where [fd] is the soft limit
    [getrlimit] reports or, when [getrlimit] fails, the configured
    minimum; the capacity is even, never above [fd], and short of
    [2 fd / 3] by less than two. *)
Theorem segment_cache_capacity_two_thirds (s : ExecEnv) :
  IsPowerOf2 (min_buffer_size config) = true ->
  let fd := if getrlimit_ret w =? 0 then to_uint64 (rlim_cur w)
            else to_uint64 (min_file_descriptor_number config) in
  let capacity := fd / 3 * 2 in
  segment_capacities (trace (_init_mem_env fuel config w s).2)
  = segment_capacities (trace s) ++ [capacity] /\
  0 <= capacity <= fd /\ fd < 2 ^ 64 /\
  capacity mod 2 = 0 /\
  2 * fd - 4 <= 3 * capacity <= 2 * fd.
Proof.
  intros Hpow fd capacity.
  destruct (storage_cache_limit_loop_finishes config w fuel limit_nonneg
              fuel_enough) as [r Hr].
  destruct (_init_mem_env_steps s r Hpow Hr) as (_ & Hseg & _).
  split; [exact Hseg|].
  assert (Hfd : 0 <= fd < 2 ^ 64).
  { subst fd. unfold to_uint64.
    destruct (getrlimit_ret w =? 0); apply Z.mod_pos_bound; lia. }
  subst capacity.
  pose proof (Z.div_mod fd 3 ltac:(lia)) as Hdm.
  pose proof (Z.mod_pos_bound fd 3 ltac:(lia)) as Hm.
  assert (0 <= fd / 3) by (apply Z.div_pos; lia).
  rewrite Z.mod_mul by lia. lia.
Qed.

(** X2: for an absolute spec the loop leaves a value that fits,
    [v] itself (negative values included), untouched; a value [v] above
    half the limit comes out as some [r] with [r <= L/2 <= 2 r]: the
    halving never undershoots half the limit by more than a factor of
    two. *)
Theorem storage_page_cache_capacity_window (s : ExecEnv) :
  IsPowerOf2 (min_buffer_size config) = true ->
  (storage_spec config w).2 = false ->
  let v := (storage_spec config w).1 in
  let half := MemInfo_mem_limit w ÷ 2 in
  exists r,
    page_cache_capacities (trace (_init_mem_env fuel config w s).2)
    = page_cache_capacities (trace s) ++ [r] /\
    (v <= half -> r = v) /\
    (half < v -> r <= half <= 2 * r).
Proof.
  intros Hpow Hflag v half. subst v half.
  destruct (quot2_nonneg _ limit_nonneg) as [Hhalf _].
  pose proof fuel_enough as Hfuel. unfold enough_fuel in Hfuel.
  destruct (storage_cache_limit_loop_absolute (MemInfo_mem_limit w) Hhalf
              (Z.to_nat (storage_spec config w).1) (storage_spec config w).1
              ltac:(lia)) as (k & Hb & Hrun & Hle & Hmin).
  exists ((storage_spec config w).1 ÷ 2 ^ Z.of_nat k). split; [|split].
  - apply _init_mem_env_page_cache; [exact Hpow|].
    rewrite Hflag. apply Hrun. lia.
  - intros Hfit. destruct k as [|k]; [simpl; apply Z.quot_1_r|].
    specialize (Hmin 0%nat ltac:(lia)). simpl in Hmin.
    rewrite Z.quot_1_r in Hmin. lia.
  - intros Hbig. split; [exact Hle|].
    destruct k as [|k]; [simpl in Hle; rewrite Z.quot_1_r in Hle; lia|].
    specialize (Hmin k ltac:(lia)).
    replace (2 ^ Z.of_nat (S k)) with (2 ^ Z.of_nat k * 2)
      by (rewrite Nat2Z.inj_succ, Z.pow_succ_r by lia; lia).
    rewrite <- Z.quot_quot by (try apply Z.pow_nonzero; lia).
    set (v' := (storage_spec config w).1 ÷ 2 ^ Z.of_nat k) in *.
    assert (0 <= v') by lia.
    rewrite (Z.quot_div_nonneg v' 2) by lia.
    pose proof (Z.div_mod v' 2 ltac:(lia)).
    pose proof (Z.mod_pos_bound v' 2 ltac:(lia)). lia.
Qed.

(** X3: [_init_mem_env] always returns to its caller, and it returns OK
    exactly when both sizes are powers of two and the temp-file manager
    and the block-spill manager initialise. *)
Theorem mem_env_succeeds_iff (s : ExecEnv) :
  (exists st, (_init_mem_env fuel config w s).1 = Returned st) /\
  ((_init_mem_env fuel config w s).1 = Returned OK <->
   IsPowerOf2 (min_buffer_size config) = true /\
   ok (tmp_file_mgr_init w) = true /\
   ok (block_spill_mgr_init w) = true /\
   IsPowerOf2 (min_chunk_reserved_bytes config) = true).
Proof.
  destruct (IsPowerOf2 (min_buffer_size config)) eqn:Hpow.
  - destruct (storage_cache_limit_loop_finishes config w fuel limit_nonneg
                fuel_enough) as [r Hr].
    destruct (_init_mem_env_steps s r Hpow Hr) as (Hres & _).
    rewrite Hres. split; [eauto|].
    destruct (ok (tmp_file_mgr_init w)) eqn:Htmp;
      [destruct (ok (block_spill_mgr_init w)) eqn:Hspill;
       [destruct (IsPowerOf2 (min_chunk_reserved_bytes config))|]|].
    + tauto.
    + split; [discriminate|]. intros (_ & _ & _ & H). discriminate.
    + split; [|intros (_ & _ & H & _); discriminate].
      intros H. injection H as H. rewrite H in Hspill. discriminate.
    + split; [|intros (_ & H & _); discriminate].
      intros H. injection H as H. rewrite H in Htmp. discriminate.
  - rewrite (_init_mem_env_bad_buffer_result s Hpow). split; [eauto|].
    split; [discriminate|]. intros (H & _). discriminate.
Qed.

(** X4: when the temp-file manager or the block-spill manager fails,
    [_init_mem_env] returns the status of the first one that failed; the
    page cache and the segment loader have been created by then and stay,
    the block-spill manager is not initialised after a temp-file failure,
    and the chunk allocator is not initialised. *)
Theorem mem_env_manager_failure (s : ExecEnv) :
  IsPowerOf2 (min_buffer_size config) = true ->
  let failed := if ok (tmp_file_mgr_init w) then block_spill_mgr_init w
                else tmp_file_mgr_init w in
  ok failed = false ->
  let run := _init_mem_env fuel config w s in
  run.1 = Returned failed /\
  length (page_cache_capacities (trace run.2))
  = S (length (page_cache_capacities (trace s))) /\
  length (segment_capacities (trace run.2))
  = S (length (segment_capacities (trace s))) /\
  calls_on _block_spill_mgr (trace run.2)
  = calls_on _block_spill_mgr (trace s)
    ++ (if ok (tmp_file_mgr_init w) then ["init"] else []) /\
  chunk_reservations (trace run.2) = chunk_reservations (trace s).
Proof.
  intros Hpow failed Hfail run. subst failed run.
  destruct (storage_cache_limit_loop_finishes config w fuel limit_nonneg
              fuel_enough) as [r Hr].
  destruct (_init_mem_env_steps s r Hpow Hr) as (Hres & Hseg & _ & Hspill & Hchunk).
  rewrite (_init_mem_env_page_cache config w fuel s r Hpow Hr), Hseg, Hres,
    Hspill, Hchunk, !length_app. simpl length.
  destruct (ok (tmp_file_mgr_init w)) eqn:Htmp.
  - rewrite Hfail. simpl. rewrite !app_nil_r.
    repeat split; solve [reflexivity | lia].
  - simpl. rewrite !app_nil_r. repeat split; solve [reflexivity | lia].
Qed.

End MemEnvSteps.

(** ** Tear-down of an arbitrary environment *)

Section DestroyAny.

Lemma SAFE_DELETE_trace (x : Member) (s : ExecEnv) :
  trace (SAFE_DELETE x s)
  = trace s ++ (if live s x then [DeleteObj x] else []).
Proof.
  unfold SAFE_DELETE. destruct (live s x); simpl; [reflexivity|].
  now rewrite app_nil_r.
Qed.

(** Deleting distinct members leaves one [DeleteObj] for each member that
    was set, in the order of the list, and none for a null pointer. *)
Lemma delete_all_trace_filter (ms : list Member) :
  forall s : ExecEnv,
    distinct ms = true ->
    trace (delete_all ms s)
    = trace s ++ map DeleteObj (List.filter (live s) ms).
Proof.
  induction ms as [|x rest IH]; intros s Hd; simpl.
  - now rewrite app_nil_r.
  - simpl in Hd. apply andb_true_iff in Hd as [Hx Hd].
    apply negb_true_iff in Hx.
    fold (delete_all rest (SAFE_DELETE x s)).
    rewrite IH by exact Hd. rewrite SAFE_DELETE_trace.
    assert (Hsame : List.filter (live (SAFE_DELETE x s)) rest
                    = List.filter (live s) rest).
    { apply List.filter_ext_in. intros y Hy. rewrite SAFE_DELETE_live.
      destruct (Member_eqb y x) eqn:Hyx; [|reflexivity].
      rewrite Member_eqb_sym in Hyx.
      assert (existsb (Member_eqb x) rest = true); [|congruence].
      apply existsb_exists. eauto. }
    rewrite Hsame. destruct (live s x); simpl.
    + now rewrite <- app_assoc.
    + now rewrite app_nil_r.
Qed.

Lemma trace_set_is_init (b : bool) (s : ExecEnv) :
  trace (set_is_init b s) = trace s.
Proof. reflexivity. Qed.

Lemma live_set_is_init (b : bool) (s : ExecEnv) (m : Member) :
  live (set_is_init b s) m = live s m.
Proof. reflexivity. Qed.

Lemma live_deregister_metrics (s : ExecEnv) (m : Member) :
  live (_deregister_metrics s) m = live s m.
Proof. reflexivity. Qed.

Lemma filter_live_deregister_metrics (s : ExecEnv) (ms : list Member) :
  List.filter (live (_deregister_metrics s)) ms = List.filter (live s) ms.
Proof. apply List.filter_ext. intros m. apply live_deregister_metrics. Qed.

Lemma _destroy_trace (s : ExecEnv) :
  _is_init s = true ->
  trace (_destroy s)
  = trace s ++ deregistered_hooks
    ++ map DeleteObj (List.filter (live s) destroy_order).
Proof.
  intros Hflag. rewrite _destroy_unfold, Hflag. simpl negb. cbv iota.
  rewrite trace_set_is_init.
  rewrite (delete_all_trace_filter destroy_order (_deregister_metrics s)
             distinct_destroy_order).
  rewrite _deregister_metrics_trace, filter_live_deregister_metrics.
  rewrite <- app_assoc. reflexivity.
Qed.

Lemma deletions_DeleteObj (ms : list Member) :
  deletions (map DeleteObj ms) = ms.
Proof.
  induction ms as [|m ms IH]; [reflexivity|].
  unfold deletions in *. simpl. f_equal. exact IH.
Qed.

Lemma deletions_app (a b : list Event) :
  deletions (a ++ b) = deletions a ++ deletions b.
Proof. apply omap_app. Qed.

Lemma store_path_map_set_is_init (b : bool) (s : ExecEnv) :
  _store_path_map (set_is_init b s) = _store_path_map s.
Proof. reflexivity. Qed.

Lemma store_path_map_deregister_metrics (s : ExecEnv) :
  _store_path_map (_deregister_metrics s) = _store_path_map s.
Proof. reflexivity. Qed.

Lemma _destroy_store_path_map (s : ExecEnv) :
  _store_path_map (_destroy s) = _store_path_map s.
Proof.
  rewrite _destroy_unfold.
  destruct (_is_init s); simpl negb; cbv iota; [|reflexivity].
  rewrite store_path_map_set_is_init.
  destruct (delete_all_frame destroy_order (_deregister_metrics s))
    as (_ & _ & Hmap & _).
  rewrite Hmap. apply store_path_map_deregister_metrics.
Qed.

(** X10: on any environment whose flag is set, whatever pointers are
    null, [destroy] unbinds the five hooks and then deletes exactly the
    members of its list that are set, each once and in list order; a null
    pointer is never deleted; afterwards every member of the list is null
    and every other member is what it was. *)
Theorem destroy_deletes_only_set_members (env : ExecEnv) :
  _is_init env = true ->
  trace (destroy env)
  = trace env ++ deregistered_hooks
    ++ map DeleteObj (List.filter (live env) destroy_order) /\
  deletions (trace (destroy env))
  = deletions (trace env) ++ List.filter (live env) destroy_order /\
  (forall m, live (destroy env) m = live env m && negb (released m)).
Proof.
  intros Hflag. unfold destroy.
  pose proof (_destroy_trace env Hflag) as Htr. split; [exact Htr|]. split.
  - rewrite Htr. generalize (List.filter (live env) destroy_order).
    intros ms. rewrite !deletions_app, deletions_DeleteObj. reflexivity.
  - intros m. rewrite _destroy_unfold, Hflag. simpl negb. cbv iota.
    rewrite live_set_is_init, delete_all_live, live_deregister_metrics.
    fold (released m).
    destruct (released m); [now rewrite andb_false_r|now rewrite andb_true_r].
Qed.

End DestroyAny.

(** ** Every path through [_init] *)

Lemma snoc_all_app (es : list Event) :
  forall base, snoc_all base es = base ++ es.
Proof.
  unfold snoc_all. induction es as [|e es IH]; intros base; simpl.
  - now rewrite app_nil_r.
  - rewrite IH, <- app_assoc. reflexivity.
Qed.

(** Turn the trace [((base ++ [e1]) ++ [e2]) ++ ...] of the goal into
    [base ++ [e1; e2; ...]]. *)
Ltac snoc_list t acc :=
  lazymatch t with
  | ?l ++ [?e] => snoc_list l constr:(e :: acc)
  | _ => constr:((t, acc))
  end.

Ltac flatten_trace :=
  lazymatch goal with
  | |- context [?l ++ [?e]] =>
      let r := snoc_list constr:(l ++ [e]) constr:(@nil Event) in
      lazymatch r with
      | (?base, ?es) =>
          change (l ++ [e]) with (snoc_all base es);
          rewrite (snoc_all_app es base)
      end
  end.


(** Walk through the branches of [_init fuel config w] in program order;
    [tac] closes each path once its end is reached. *)
Ltac walk_paths fuel config w tac :=
  exec;
  destruct (download_cache_buffer_size config <? 0) eqn:Hbuf_size;
    [exec; tac|];
  exec;
  destruct (ok (pipeline_task_scheduler_start w)) eqn:Hpipeline;
    [|exec; rewrite Hpipeline; exec; tac];
  destruct (ok (load_path_mgr_init w)) eqn:Hload_path; [|exec; tac];
  destruct (tcmalloc_hook_compiled w && enable_tcmalloc_hook config);
  (destruct (IsPowerOf2 (min_buffer_size config)) eqn:Hbuffer;
   [destruct (storage_cache_limit_loop fuel
                (parse_mem_spec w (storage_page_cache_limit config)
                   (MemInfo_mem_limit w) (MemInfo_physical_mem w) false).2
                (MemInfo_mem_limit w)
                (parse_mem_spec w (storage_page_cache_limit config)
                   (MemInfo_mem_limit w) (MemInfo_physical_mem w) false).1)
      eqn:Hloop; [|exec; tac];
    destruct (ok (tmp_file_mgr_init w)) eqn:Htmp;
    [destruct (ok (block_spill_mgr_init w)) eqn:Hspill;
     [destruct (IsPowerOf2 (min_chunk_reserved_bytes config)) eqn:Hchunk|]|]
   |]);
  (destruct (ok (load_channel_mgr_init w (MemInfo_mem_limit w)))
     eqn:Hload_channel);
  exec; tac.

(** Use the statuses the walk has decided. *)
Ltac use_statuses :=
  repeat match goal with H : ok _ = _ |- _ => rewrite H end.

Section InitPaths.

Variables (fuel : nat) (config : Config) (w : World)
  (store_paths : list StorePath).

(** The flag tells whether [_init] succeeded; what is constructed before
    the download-cache buffer is there on every path, and the pipeline
    task scheduler on every path that gets past that buffer. *)
Lemma _init_flag_and_early_members (s : ExecEnv) :
  _is_init s = false ->
  _is_init (_init fuel config w store_paths s).2
  = succeeded (_init fuel config w store_paths s).1 /\
  forallb (live (_init fuel config w store_paths s).2)
    built_before_download_cache_buf = true /\
  (0 <= download_cache_buffer_size config ->
   forallb (live (_init fuel config w store_paths s).2)
     built_before_first_check = true).
Proof.
  intros Hinit. destruct s; simpl in Hinit; subst.
  walk_paths fuel config w ltac:(idtac;
    cbn [succeeded ok]; use_statuses;
    split; [reflexivity|]; split; [vm_compute; reflexivity|];
    intros Hb;
    first [ vm_compute; reflexivity
          | apply Z.ltb_lt in Hbuf_size; lia ]).
Qed.

(** The hooks are bound on the successful path only, and [_init] unbinds
    none. *)
Lemma _init_hooks (s : ExecEnv) :
  _is_init s = false ->
  registrations (trace (_init fuel config w store_paths s).2)
  = registrations (trace s)
    ++ (if succeeded (_init fuel config w store_paths s).1
        then registered_hooks else []) /\
  deregistrations (trace (_init fuel config w store_paths s).2)
  = deregistrations (trace s).
Proof.
  intros Hinit. destruct s; simpl in Hinit; subst.
  walk_paths fuel config w ltac:(idtac;
    cbn [succeeded ok]; use_statuses;
    flatten_trace; unfold registrations, deregistrations;
    rewrite !omap_app; split;
    [f_equal; vm_compute; reflexivity
    |rewrite <- app_nil_r; f_equal; vm_compute; reflexivity]).
Qed.

(** X8: whatever path [_init] takes on an environment that is not yet
    initialised (also a failing, exiting or throwing one), it leaves the
    batch-send pool built with minimum = maximum = the configured thread
    count, the download-cache pool built with minimum 1 and the
    configured maximum, and the serial token set.  When the configured
    buffer size is not negative, a buffer of that size is stored under
    the token in the token -> buffer map; when it is negative, the
    allocation throws, [_init] does not return, and the map is left as it
    was. *)
Theorem init_builds_pools_on_every_path (s : ExecEnv) :
  _is_init s = false ->
  let run := _init fuel config w store_paths s in
  _send_batch_thread_pool run.2
  = Some (mkWorkerPool "SendBatchThreadPool"
            (send_batch_thread_pool_thread_num config)
            (send_batch_thread_pool_thread_num config)
            (send_batch_thread_pool_queue_size config)) /\
  _download_cache_thread_pool run.2
  = Some (mkWorkerPool "DownloadCacheThreadPool" 1
            (download_cache_thread_pool_thread_num config)
            (download_cache_thread_pool_queue_size config)) /\
  exists token,
    _serial_download_cache_thread_token run.2 = Some token /\
    (0 <= download_cache_buffer_size config ->
     _download_cache_buf_map run.2 !! token
     = Some (download_cache_buffer_size config)) /\
    (download_cache_buffer_size config < 0 ->
     run.1 = Thrown /\
     _download_cache_buf_map run.2 = _download_cache_buf_map s).
Proof.
  intros Hinit. destruct s; simpl in Hinit; subst.
  walk_paths fuel config w ltac:(idtac;
    split; [reflexivity|]; split; [reflexivity|];
    eexists; split; [reflexivity|]; split; intros Hb;
    first [ apply lookup_insert_eq
          | split; reflexivity
          | apply Z.ltb_lt in Hbuf_size; lia
          | apply Z.ltb_ge in Hbuf_size; lia ]).
Qed.

(** X13: whatever path [_init] takes on an environment that is not yet
    initialised, it only appends to the trace, every call it makes on a
    member comes after the [new] of that member in the same run, and it
    constructs no member twice. *)
Theorem init_calls_follow_construction (s : ExecEnv) :
  _is_init s = false ->
  exists added,
    trace (_init fuel config w store_paths s).2 = trace s ++ added /\
    calls_after_new [] added = true /\
    distinct (omap (fun e => match e with New m _ => Some m | _ => None end)
                added) = true.
Proof.
  intros Hinit. destruct s; simpl in Hinit; subst.
  walk_paths fuel config w ltac:(idtac;
    flatten_trace;
    eexists; split; [reflexivity | split; vm_compute; reflexivity]).
Qed.


(** X6: on an environment that is not yet initialised, with a
    non-negative memory limit and enough fuel, [init] returns OK exactly
    when the download-cache buffer size is not negative, the pipeline
    task scheduler starts, the load-path manager initialises and the
    load-channel manager initialises; what [_init_mem_env] returns has no
    part in it. *)
Theorem init_succeeds_iff (env : ExecEnv) :
  _is_init env = false ->
  0 <= MemInfo_mem_limit w ->
  enough_fuel fuel config w ->
  (init fuel config w env store_paths).1 = Returned OK <->
  0 <= download_cache_buffer_size config /\
  ok (pipeline_task_scheduler_start w) = true /\
  ok (load_path_mgr_init w) = true /\
  ok (load_channel_mgr_init w (MemInfo_mem_limit w)) = true.
Proof.
  intros Hinit HL Hfuel. unfold init.
  destruct (Z.lt_ge_cases (download_cache_buffer_size config) 0) as [Hneg|Hb].
  - destruct (_init_negative_buffer_size fuel config w store_paths env
                Hinit Hneg) as (Hres & _).
    rewrite Hres. split; [discriminate|]. intros (H & _). lia.
  - destruct (ok (pipeline_task_scheduler_start w)) eqn:Hp.
    + destruct (ok (load_path_mgr_init w)) eqn:Hl.
      * rewrite _init_returns_load_channel_status by assumption. split.
        -- intros H. injection H as H. rewrite H. auto.
        -- intros (_ & _ & _ & H). now rewrite (ok_true _ H).
      * destruct (_init_load_path_failure fuel config w store_paths env
                    Hinit Hb Hp Hl) as (Hres & _).
        rewrite Hres. split; [discriminate|].
        intros (_ & _ & H & _). discriminate.
    + rewrite _init_pipeline_failure by assumption. split.
      * intros H. injection H as H. rewrite H in Hp. discriminate.
      * intros (_ & H & _). discriminate.
Qed.

(** X7: on an environment that is not yet initialised, the flag is set
    exactly when [init] returns OK; after any other outcome a [destroy]
    changes nothing, so what was constructed stays constructed: the
    members built before the download-cache buffer on every path, and
    with them the pipeline task scheduler when the buffer size is not
    negative.  A failed [init] is not rolled back. *)
Theorem failed_init_is_not_rolled_back (env : ExecEnv) :
  _is_init env = false ->
  let run := init fuel config w env store_paths in
  _is_init run.2 = succeeded run.1 /\
  (succeeded run.1 = false ->
   destroy run.2 = run.2 /\
   forallb (live (destroy run.2)) built_before_download_cache_buf = true /\
   (0 <= download_cache_buffer_size config ->
    forallb (live (destroy run.2)) built_before_first_check = true)).
Proof.
  intros Hinit run. subst run. unfold init, destroy.
  destruct (_init_flag_and_early_members env Hinit) as (Hflag & Hearly & Hlive).
  split; [exact Hflag|]. intros Hfail.
  rewrite _destroy_not_initialized by congruence. auto.
Qed.

Lemma deregistrations_DeleteObj (ms : list Member) :
  deregistrations (map DeleteObj ms) = [].
Proof.
  induction ms as [|m ms IH]; [reflexivity|].
  unfold deregistrations in *. simpl. exact IH.
Qed.

Lemma deregistrations_app (a b : list Event) :
  deregistrations (a ++ b) = deregistrations a ++ deregistrations b.
Proof. apply omap_app. Qed.

(** X9: [init] binds its four hooks on the successful path only and
    unbinds none; a [destroy] after a successful [init] unbinds five:
    "scanner_thread_pool_queue_size", which [init] never bound, and then
    the four that it did bind, in the order of binding. *)
Theorem hooks_bound_and_unbound (env : ExecEnv) :
  _is_init env = false ->
  let run := init fuel config w env store_paths in
  registrations (trace run.2)
  = registrations (trace env)
    ++ (if succeeded run.1 then registered_hooks else []) /\
  deregistrations (trace run.2) = deregistrations (trace env) /\
  (succeeded run.1 = true ->
   registrations (trace (destroy run.2)) = registrations (trace run.2) /\
   deregistrations (trace (destroy run.2))
   = deregistrations (trace env)
     ++ "scanner_thread_pool_queue_size" :: registered_hooks).
Proof.
  intros Hinit run. subst run. unfold init, destroy.
  destruct (_init_hooks env Hinit) as [Hreg Hdereg].
  destruct (_init_flag_and_early_members env Hinit) as (Hflag & _).
  split; [exact Hreg|]. split; [exact Hdereg|]. intros Hok.
  rewrite Hok in Hflag. rewrite (_destroy_trace _ Hflag).
  generalize (List.filter (live (_init fuel config w store_paths env).2)
                destroy_order).
  intros ms. split.
  - unfold registrations. rewrite !omap_app.
    assert (Hnone : omap registration (map DeleteObj ms) = []).
    { induction ms as [|m ms IH]; [reflexivity|]. simpl. exact IH. }
    rewrite Hnone. simpl. now rewrite app_nil_r.
  - rewrite !deregistrations_app, deregistrations_DeleteObj, Hdereg.
    rewrite app_nil_r. reflexivity.
Qed.

End InitPaths.

(** ** The path -> index map, read back *)

Section StorePathMapReadBack.

Lemma last_occurrence_or_absent (store_paths : list StorePath) (p : string) :
  absent store_paths p \/ exists n, last_occurrence store_paths p n.
Proof.
  induction store_paths as [|sp rest IH].
  - left. intros n. discriminate.
  - destruct IH as [Habs|[n Hlast]].
    + destruct (decide (path sp = p)) as [Heq|Hne].
      * right. exists 0%nat. apply last_occurrence_cons. right. auto.
      * left. apply absent_cons. auto.
    + right. exists (S n). apply last_occurrence_cons. left. eauto.
Qed.

(** X11: after [init] on an environment that is not yet initialised and
    whose map is empty, reading a path's index from the map and then the
    list at that index gives back a store path with that very path (so
    every index is within the list), and the keys of the map are exactly
    the paths of the list. *)
Theorem store_path_map_reads_back
    (fuel : nat) (config : Config) (w : World) (env : ExecEnv)
    (store_paths : list StorePath) :
  _is_init env = false ->
  _store_path_map env = ∅ ->
  let m := _store_path_map (init fuel config w env store_paths).2 in
  (forall (p : string) (i : nat),
     m !! p = Some i ->
     (i < length store_paths)%nat /\
     exists sp, store_paths !! i = Some sp /\ path sp = p) /\
  (forall p : string, is_Some (m !! p) <-> p ∈ path <$> store_paths).
Proof.
  intros Hinit Hempty m. subst m. unfold init.
  rewrite _init_store_path_map, Hempty by exact Hinit.
  assert (Hiff : forall (p : string) (i : nat),
            store_path_map_loop store_paths 0 ∅ !! p = Some i
            <-> last_occurrence store_paths p i).
  { intros p i. rewrite store_path_map_loop_lookup. split.
    - intros [(n & -> & Hlast)|[_ Hnone]]; [exact Hlast|].
      rewrite lookup_empty in Hnone. discriminate.
    - intros Hlast. left. exists i. split; [reflexivity|exact Hlast]. }
  split.
  - intros p i Hi. apply Hiff in Hi as [Hat _].
    rewrite list_lookup_fmap in Hat.
    destruct (store_paths !! i) as [sp|] eqn:Hsp; [|discriminate].
    split; [now apply lookup_lt_Some in Hsp|].
    exists sp. split; [reflexivity|]. simpl in Hat. congruence.
  - intros p. split.
    + intros [i Hi]. apply Hiff in Hi as [Hat _].
      apply list_elem_of_lookup. eauto.
    + intros Hin. apply list_elem_of_lookup in Hin as [n Hn].
      destruct (last_occurrence_or_absent store_paths p) as [Habs|[k Hk]].
      * now destruct (Habs n).
      * exists k. now apply Hiff.
Qed.

(** X12: the map is never cleared.  A path that a first [init] mapped to
    [i] is still mapped to [i] after [destroy] and a second [init] whose
    list does not contain it. *)
Theorem store_path_map_keeps_stale_entries
    (fuel1 fuel2 : nat) (config1 config2 : Config) (w1 w2 : World)
    (env : ExecEnv) (paths1 paths2 : list StorePath) (p : string) (i : nat) :
  _is_init env = false ->
  last_occurrence paths1 p i ->
  absent paths2 p ->
  let env1 := (init fuel1 config1 w1 env paths1).2 in
  let env2 := (init fuel2 config2 w2 (destroy env1) paths2).2 in
  _store_path_map env2 !! p = Some i.
Proof.
  intros Hinit Hlast Habs env1 env2. subst env1 env2. unfold init, destroy.
  rewrite _init_store_path_map by apply _destroy_clears_flag.
  apply store_path_map_loop_lookup. right. split; [exact Habs|].
  rewrite _destroy_store_path_map, _init_store_path_map by exact Hinit.
  apply store_path_map_loop_lookup. left.
  exists i. split; [reflexivity|exact Hlast].
Qed.

End StorePathMapReadBack.

(** ** The pipeline task scheduler *)

Section PipelineTaskScheduler.

Variables (config : Config) (w : World).

(** X14: [init_pipeline_task_scheduler] sizes the task queue with the
    configured executor count when that is positive and with the number
    of cores otherwise (so with a positive number whenever the machine
    reports a positive number of cores), returns exactly the status of
    the scheduler's [start], and leaves the scheduler constructed also
    when [start] fails. *)
Theorem pipeline_scheduler_sized_and_started (s : ExecEnv) :
  let run := init_pipeline_task_scheduler config w s in
  let n := if pipeline_executor_size config <=? 0
           then CpuInfo_num_cores w else pipeline_executor_size config in
  trace run.2
  = trace s ++
    [Static "std::make_shared<pipeline::TaskQueue>" [AInt n];
     Static "std::make_shared<pipeline::BlockedTaskScheduler>" [];
     New _pipeline_task_scheduler [AThis];
     Call _pipeline_task_scheduler "start" []] /\
  (0 < CpuInfo_num_cores w -> 0 < n) /\
  run.1 = Returned (pipeline_task_scheduler_start w) /\
  live run.2 _pipeline_task_scheduler = true /\
  _is_init run.2 = _is_init s.
Proof.
  intros run n. subst run n. destruct s. exec.
  destruct (pipeline_executor_size config <=? 0) eqn:Hsize.
  - destruct (ok (pipeline_task_scheduler_start w)) eqn:Hok; exec;
      rewrite <- ?app_assoc; repeat split; try reflexivity; try tauto.
    now rewrite (ok_true _ Hok).
  - apply Z.leb_gt in Hsize.
    destruct (ok (pipeline_task_scheduler_start w)) eqn:Hok; exec;
      rewrite <- ?app_assoc; repeat split; try reflexivity; try lia.
    now rewrite (ok_true _ Hok).
Qed.

End PipelineTaskScheduler.

(** ** The properties above on concrete inputs *)

Lemma segment_cache_capacity_two_thirds_witness :
  let run := _init_mem_env 64 sample_config (sample_world_rlimit (-1) 0)
               fresh_env in
  segment_capacities (trace run.2) = [] ++ [40000] /\
  0 <= 40000 <= 60000 /\ 60000 < 2 ^ 64 /\
  40000 mod 2 = 0 /\
  2 * 60000 - 4 <= 3 * 40000 <= 2 * 60000.
Proof.
  apply (segment_cache_capacity_two_thirds 64 sample_config
           (sample_world_rlimit (-1) 0));
    [vm_compute; discriminate | unfold enough_fuel; vm_compute; lia
    | reflexivity].
Defined.

Lemma storage_page_cache_capacity_window_witness :
  exists r,
    page_cache_capacities
      (trace (_init_mem_env 64 (sample_config_with 1024 "2500" 1024 "20%")
                sample_world fresh_env).2) = [] ++ [r] /\
    (2500 <= 1000 ÷ 2 -> r = 2500) /\
    (1000 ÷ 2 < 2500 -> r <= 1000 ÷ 2 <= 2 * r).
Proof.
  apply (storage_page_cache_capacity_window 64
           (sample_config_with 1024 "2500" 1024 "20%") sample_world);
    [vm_compute; discriminate | unfold enough_fuel; vm_compute; lia
    | reflexivity | reflexivity].
Defined.

Lemma mem_env_succeeds_iff_witness :
  let w := sample_world_with 1000 OK OK OK (Failure 3 "spill dir") OK in
  (exists st, (_init_mem_env 64 sample_config w fresh_env).1 = Returned st) /\
  ((_init_mem_env 64 sample_config w fresh_env).1 = Returned OK <->
   IsPowerOf2 1024 = true /\
   ok OK = true /\
   ok (Failure 3 "spill dir") = true /\
   IsPowerOf2 1024 = true).
Proof.
  intros w.
  apply (mem_env_succeeds_iff 64 sample_config w);
    [vm_compute; discriminate | unfold enough_fuel; vm_compute; lia].
Defined.

Lemma mem_env_manager_failure_witness :
  let w := sample_world_with 1000 OK OK (Failure 1 "tmp dir") OK OK in
  let run := _init_mem_env 64 sample_config w fresh_env in
  run.1 = Returned (Failure 1 "tmp dir") /\
  length (page_cache_capacities (trace run.2)) = 1%nat /\
  length (segment_capacities (trace run.2)) = 1%nat /\
  calls_on _block_spill_mgr (trace run.2) = [] ++ [] /\
  chunk_reservations (trace run.2) = [].
Proof.
  intros w.
  apply (mem_env_manager_failure 64 sample_config w);
    [vm_compute; discriminate | unfold enough_fuel; vm_compute; lia
    | reflexivity | reflexivity].
Defined.

Lemma mem_env_bad_buffer_size_stops_early_witness :
  let run := _init_mem_env 64 (sample_config_with 96 "20%" 1024 "20%")
               sample_world fresh_env in
  run.1 = Returned (InternalError
            ("Config min_buffer_size must be a power-of-two: " +:+ pretty 96)) /\
  page_cache_capacities (trace run.2) = [] /\
  segment_capacities (trace run.2) = [] /\
  chunk_reservations (trace run.2) = [] /\
  calls_on _tmp_file_mgr (trace run.2) = [] /\
  calls_on _block_spill_mgr (trace run.2) = [] /\
  live run.2 _orphan_mem_tracker = true.
Proof.
  apply (mem_env_bad_buffer_size_stops_early 64
           (sample_config_with 96 "20%" 1024 "20%") sample_world fresh_env).
  reflexivity.
Defined.

Lemma destroy_deletes_only_set_members_witness :
  let env := set_live _broker_mgr true (set_is_init true fresh_env) in
  trace (destroy env)
  = trace env ++ deregistered_hooks
    ++ map DeleteObj (List.filter (live env) destroy_order) /\
  deletions (trace (destroy env))
  = deletions (trace env) ++ List.filter (live env) destroy_order /\
  (forall m, live (destroy env) m = live env m && negb (released m)).
Proof.
  intros env. apply (destroy_deletes_only_set_members env). reflexivity.
Defined.

Lemma init_builds_pools_on_every_path_witness :
  let w := sample_world_with 1000 (Failure 4 "no threads") OK OK OK OK in
  let run := _init 64 sample_config w sample_paths fresh_env in
  _send_batch_thread_pool run.2
  = Some (mkWorkerPool "SendBatchThreadPool" 64 64 102400) /\
  _download_cache_thread_pool run.2
  = Some (mkWorkerPool "DownloadCacheThreadPool" 1 1 102400) /\
  exists token,
    _serial_download_cache_thread_token run.2 = Some token /\
    (0 <= 10485760 ->
     _download_cache_buf_map run.2 !! token = Some 10485760) /\
    (10485760 < 0 ->
     run.1 = Thrown /\
     _download_cache_buf_map run.2 = _download_cache_buf_map fresh_env).
Proof.
  intros w.
  apply (init_builds_pools_on_every_path 64 sample_config w sample_paths
           fresh_env).
  reflexivity.
Defined.

Lemma init_calls_follow_construction_witness :
  exists added,
    trace (_init 64 sample_config sample_world sample_paths fresh_env).2
    = trace fresh_env ++ added /\
    calls_after_new [] added = true /\
    distinct (omap (fun e => match e with New m _ => Some m | _ => None end)
                added) = true.
Proof.
  apply (init_calls_follow_construction 64 sample_config sample_world
           sample_paths fresh_env).
  reflexivity.
Defined.

Lemma init_succeeds_iff_witness :
  let w := sample_world_with 1000 OK OK (Failure 1 "tmp dir") OK OK in
  (init 64 sample_config w fresh_env sample_paths).1 = Returned OK <->
  0 <= 10485760 /\ ok OK = true /\ ok OK = true /\ ok OK = true.
Proof.
  intros w.
  apply (init_succeeds_iff 64 sample_config w sample_paths fresh_env);
    [reflexivity | vm_compute; discriminate
    | unfold enough_fuel; vm_compute; lia].
Defined.

Lemma failed_init_is_not_rolled_back_witness :
  let w := sample_world_with 1000 (Failure 4 "no threads") OK OK OK OK in
  let run := init 64 sample_config w fresh_env sample_paths in
  _is_init run.2 = succeeded run.1 /\
  (succeeded run.1 = false ->
   destroy run.2 = run.2 /\
   forallb (live (destroy run.2)) built_before_download_cache_buf = true /\
   (0 <= 10485760 ->
    forallb (live (destroy run.2)) built_before_first_check = true)).
Proof.
  intros w.
  apply (failed_init_is_not_rolled_back 64 sample_config w sample_paths
           fresh_env).
  reflexivity.
Defined.

Lemma hooks_bound_and_unbound_witness :
  let run := init 64 sample_config sample_world fresh_env sample_paths in
  registrations (trace run.2)
  = registrations (trace fresh_env)
    ++ (if succeeded run.1 then registered_hooks else []) /\
  deregistrations (trace run.2) = deregistrations (trace fresh_env) /\
  (succeeded run.1 = true ->
   registrations (trace (destroy run.2)) = registrations (trace run.2) /\
   deregistrations (trace (destroy run.2))
   = deregistrations (trace fresh_env)
     ++ "scanner_thread_pool_queue_size" :: registered_hooks).
Proof.
  apply (hooks_bound_and_unbound 64 sample_config sample_world sample_paths
           fresh_env).
  reflexivity.
Defined.

Lemma store_path_map_reads_back_witness :
  let m :=
    _store_path_map
      (init 64 sample_config sample_world fresh_env sample_paths).2 in
  (forall (p : string) (i : nat),
     m !! p = Some i ->
     (i < length sample_paths)%nat /\
     exists sp, sample_paths !! i = Some sp /\ path sp = p) /\
  (forall p : string, is_Some (m !! p) <-> p ∈ path <$> sample_paths).
Proof.
  apply (store_path_map_reads_back 64 sample_config sample_world fresh_env
           sample_paths); reflexivity.
Defined.

Lemma store_path_map_keeps_stale_entries_witness :
  let env1 := (init 64 sample_config sample_world fresh_env sample_paths).2 in
  let env2 :=
    (init 64 sample_config sample_world (destroy env1)
       [mkStorePath "/c" 1]).2 in
  _store_path_map env2 !! "/b" = Some 1%nat.
Proof.
  apply (store_path_map_keeps_stale_entries 64 64 sample_config sample_config
           sample_world sample_world fresh_env sample_paths
           [mkStorePath "/c" 1] "/b" 1).
  - reflexivity.
  - split; [reflexivity|]. intros [|[|[|k]]] Hk; solve [lia | discriminate].
  - intros [|k]; discriminate.
Defined.

(** With a buffer size of [-1] and every collaborator willing, [init]
    throws after eleven actions: eight members, the two pools and the
    serial token. *)
Example negative_buffer_size_throws :
  let run := init 64 (sample_config_buffer (-1)) sample_world fresh_env
               sample_paths in
  run.1 = Thrown /\
  length (trace run.2) = 11%nat /\
  last (trace run.2) = Some (Static "ThreadPool::new_token" [AStr "SERIAL"]) /\
  _download_cache_buf_map run.2 = ∅ /\
  live run.2 _pipeline_task_scheduler = false /\
  _is_init run.2 = false.
Proof. vm_compute. repeat split; reflexivity. Qed.
